(** * DeceptoGuard: the threat-scoring pipeline

    A shallow embedding of [backend/utils/security_utils.py],
    [backend/feature_extraction.py], the scoring part of [backend/app.py]
    and the row-collecting loop of [backend/train_model.py], followed by
    the properties of the pipeline.

    Conventions.
    - A Python [str] is a list of characters, one [ascii] per code point;
      the embedding therefore covers the code points below 256, and every
      character-class function below ([isspace], [lower], the class [\d])
      is the Python one restricted to that range.
    - Python integers are [Z]; Python floats are binary64 values
      ([PrimFloat.float]).
    - A computation that may raise is a value of [result]. *)

From Stdlib Require Import PrimFloat FloatOps SpecFloat QArith_base.
From Stdlib Require Import ZArith List Ascii String Bool Lia PeanoNat.
From Stdlib Require Import DecimalString.
Import ListNotations.

Close Scope Q_scope.

Set Implicit Arguments.
Set Warnings "-inexact-float".

(** ** Python values and built-ins *)

Module Py.

Definition str := list ascii.

(** A literal of the source text.  The fixed reason texts of [app.py]
    start with a pictograph above U+00FF; it appears here as the bytes of
    its UTF-8 encoding, and no function ever inspects it. *)
Definition lit (t : string) : str := list_ascii_of_string t.

Inductive exn : Type :=
| ValueError (msg : str)
| IndexError (msg : str)
| OverflowError (msg : str).

(** [str(e)] *)
Definition exn_str (e : exn) : str :=
  match e with
  | ValueError m | IndexError m | OverflowError m => m
  end.

Inductive result (A : Type) : Type :=
| Ok (a : A)
| Raise (e : exn).
Arguments Ok {A} a.
Arguments Raise {A} e.

Definition bind {A B} (r : result A) (k : A -> result B) : result B :=
  match r with
  | Ok a => k a
  | Raise e => Raise e
  end.

(** [try: body  except Exception as e: handler(e)] *)
Definition try_except {A} (body : result A) (handler : exn -> result A)
  : result A :=
  match body with
  | Ok a => Ok a
  | Raise e => handler e
  end.

(** The values a request can carry.  [PyObject outcome] stands for any
    object that is none of the others, given by what [str()] does on it:
    the text it returns or the exception it raises. *)
Inductive value : Type :=
| PyStr (t : str)
| PyInt (n : Z)
| PyBool (b : bool)
| PyNone
| PyObject (outcome : result str).

Definition isinstance_str (v : value) : bool :=
  match v with PyStr _ => true | _ => false end.

(** [sys.int_max_str_digits], as CPython 3.11 starts with: an int with
    more decimal digits is not converted to text. *)
Definition int_max_str_digits : Z := 4300.

(** The least magnitude with more digits, [10 ** 4300], as a numeral. *)
Definition int_str_limit : Z :=
  Eval vm_compute in (10 ^ int_max_str_digits)%Z.

(** [str(v)] *)
Definition to_str (v : value) : result str :=
  match v with
  | PyStr t => Ok t
  | PyInt n =>
      if (int_str_limit <=? Z.abs n)%Z
      then Raise (ValueError
                    (lit "Exceeds the limit (4300 digits) for integer string conversion; use sys.set_int_max_str_digits() to increase the limit"))
      else Ok (lit (NilZero.string_of_int (Z.to_int n)))
  | PyBool true => Ok (lit "True")
  | PyBool false => Ok (lit "False")
  | PyNone => Ok (lit "None")
  | PyObject outcome => outcome
  end.

Definition len (t : str) : Z := Z.of_nat (List.length t).

(** Truth value of a string: [not t] is [negb (truthy t)]. *)
Definition truthy (t : str) : bool :=
  match t with [] => false | _ :: _ => true end.

Definition str_eqb (a b : str) : bool :=
  if list_eq_dec ascii_dec a b then true else false.

(** [t.replace(old, new)] for a one-character [old]. *)
Definition replace (old : ascii) (new : str) (t : str) : str :=
  flat_map (fun c => if Ascii.eqb c old then new else [c]) t.

(** [t[:n]] for [n >= 0]. *)
Definition slice_to (n : nat) (t : str) : str := firstn n t.

Fixpoint dropwhile (p : ascii -> bool) (t : str) : str :=
  match t with
  | [] => []
  | c :: t' => if p c then dropwhile p t' else t
  end.

(** [str.isspace] on one character: the code points below 256 that
    Python treats as whitespace. *)
Definition isspace (c : ascii) : bool :=
  let n := N_of_ascii c in
  (((9 <=? n) && (n <=? 13)) || ((28 <=? n) && (n <=? 32))
   || (n =? 133) || (n =? 160))%N.

Definition lstrip_with (p : ascii -> bool) (t : str) : str := dropwhile p t.
Definition rstrip_with (p : ascii -> bool) (t : str) : str :=
  rev (dropwhile p (rev t)).

(** [t.strip()] *)
Definition strip (t : str) : str := rstrip_with isspace (lstrip_with isspace t).

(** [str.lower] on one character below 256: the ASCII capitals and the
    Latin-1 capitals U+00C0..U+00DE (U+00D7, the multiplication sign, is
    not a letter). *)
Definition lower_char (c : ascii) : ascii :=
  let n := N_of_ascii c in
  if (((65 <=? n) && (n <=? 90))
      || ((192 <=? n) && (n <=? 222) && negb (n =? 215)))%N
  then ascii_of_N (n + 32) else c.

(** The class [\d] of [re] on a [str], the decimal digits of Unicode:
    among the code points below 256, which are those a [str] holds here,
    these are 0 to 9. *)
Definition isdigit (c : ascii) : bool :=
  let n := N_of_ascii c in ((48 <=? n) && (n <=? 57))%N.

(** [c.isascii() and c.isalpha()] *)
Definition isascii_alpha (c : ascii) : bool :=
  let n := N_of_ascii c in
  (((65 <=? n) && (n <=? 90)) || ((97 <=? n) && (n <=? 122)))%N.

Definition lower (t : str) : str := map lower_char t.

Fixpoint startswith (p t : str) : bool :=
  match p, t with
  | [], _ => true
  | _ :: _, [] => false
  | a :: p', b :: t' => Ascii.eqb a b && startswith p' t'
  end.

(** [sub in t] for strings. *)
Fixpoint contains (sub t : str) : bool :=
  startswith sub t
  || match t with
     | [] => false
     | _ :: t' => contains sub t'
     end.

(** [c in t] for a character. *)
Definition has_char (c : ascii) (t : str) : bool := existsb (Ascii.eqb c) t.

(** [t.count(c)] for a one-character argument. *)
Definition count (c : ascii) (t : str) : Z :=
  Z.of_nat (List.length (filter (Ascii.eqb c) t)).

(** [t.partition(c)]: the text before the first [c], whether [c] was
    found, and the text after it. *)
Fixpoint partition (c : ascii) (t : str) : str * bool * str :=
  match t with
  | [] => ([], false, [])
  | a :: t' =>
      if Ascii.eqb a c then ([], true, t')
      else let '(h, found, r) := partition c t' in (a :: h, found, r)
  end.

(** [l[i]] for [i >= 0]. *)
Definition getitem {A} (l : list A) (i : nat) : result A :=
  match nth_error l i with
  | Some x => Ok x
  | None => Raise (IndexError (lit "list index out of range"))
  end.

(** [int(x)] for a float: the integer part, towards zero. *)
Definition int_of_float (x : PrimFloat.float) : result Z :=
  match FloatOps.Prim2SF x with
  | SpecFloat.S754_zero _ => Ok 0%Z
  | SpecFloat.S754_finite s m e =>
      let a := if (0 <=? e)%Z then (Z.pos m * 2 ^ e)%Z
               else (Z.pos m / 2 ^ (- e))%Z in
      Ok (if s then (- a)%Z else a)
  | SpecFloat.S754_infinity _ =>
      Raise (OverflowError (lit "cannot convert float infinity to integer"))
  | SpecFloat.S754_nan =>
      Raise (ValueError (lit "cannot convert float NaN to integer"))
  end.

(** [t.rpartition(c)]: the same around the last [c]; without a [c] the
    whole text comes last. *)
Definition rpartition (c : ascii) (t : str) : str * bool * str :=
  let '(h, found, r) := partition c (rev t) in
  if found then (rev r, true, rev h) else ([], false, t).

(** [t.split(sep)] for a one-character separator: the fields between the
    separators, at least one. *)
Fixpoint split (sep : ascii) (t : str) : list str :=
  match t with
  | [] => [[]]
  | c :: t' =>
      if Ascii.eqb c sep then [] :: split sep t'
      else match split sep t' with
           | field :: fields => (c :: field) :: fields
           | [] => [[c]]
           end
  end.

(** [sep.join(parts)] *)
Fixpoint join (sep : str) (parts : list str) : str :=
  match parts with
  | [] => []
  | [p] => p
  | p :: rest => p ++ sep ++ join sep rest
  end.

(** [t.endswith(suffix)] *)
Definition endswith (suffix t : str) : bool :=
  startswith (rev suffix) (rev t).

(** [ord(c) > 127] *)
Definition non_ascii (c : ascii) : bool := (127 <? N_of_ascii c)%N.

End Py.

Import Py.

Declare Scope py_scope.
Notation "x <- e ;; k" := (bind e (fun x => k))
  (at level 61, e at next level, right associativity) : py_scope.
Open Scope py_scope.
Open Scope Z_scope.

(** ** html.escape *)

Module Html.

(** [html.escape(s)] with its default [quote=True]: five replacements,
    the ampersand first. *)
Definition escape (t : str) : str :=
  let t := replace "&"%char (lit "&amp;") t in
  let t := replace "<"%char (lit "&lt;") t in
  let t := replace ">"%char (lit "&gt;") t in
  let t := replace (ascii_of_nat 34) (lit "&quot;") t in
  let t := replace "'"%char (lit "&#x27;") t in
  t.

End Html.

(** ** The regular expressions of the source

    The fragment of [re] syntax the source uses: literal characters,
    escaped punctuation, the class [\d] and bounded repetition [{m,n}],
    matched the way [re] does (leftmost, greedy, with backtracking). *)

Module Re.

Inductive atom : Type :=
| Chr (c : ascii)
| Digit.

Record item : Type := Item { it_atom : atom; it_min : nat; it_max : nat }.

Definition regex := list item.

(** *** Reading a pattern *)

Inductive pstate : Type :=
| Plain
| Escape
| QMin (lo : option nat)
| QMax (lo : nat) (hi : option nat).

Definition digit_val (c : ascii) : nat := N.to_nat (N_of_ascii c - 48).

Definition push_digit (n : option nat) (c : ascii) : option nat :=
  Some (10 * match n with Some k => k | None => 0 end + digit_val c)%nat.

Definition is_meta (c : ascii) : bool :=
  has_char c (lit ".^$*+?[]()|}").

Definition isalnum (c : ascii) : bool := isdigit c || isascii_alpha c.

(** The items read so far are kept last first. *)
Definition set_bounds (lo hi : nat) (acc : regex) : option regex :=
  match acc with
  | it :: acc' => Some (Item (it_atom it) lo hi :: acc')
  | [] => None
  end.

Definition compile_step (st : option (regex * pstate)) (c : ascii)
  : option (regex * pstate) :=
  match st with
  | None => None
  | Some (acc, Plain) =>
      if Ascii.eqb c "\"%char then Some (acc, Escape)
      else if Ascii.eqb c "{"%char then
        match acc with [] => None | _ :: _ => Some (acc, QMin None) end
      else if is_meta c then None
      else Some (Item (Chr c) 1 1 :: acc, Plain)
  | Some (acc, Escape) =>
      if Ascii.eqb c "d"%char then Some (Item Digit 1 1 :: acc, Plain)
      else if isalnum c then None
      else Some (Item (Chr c) 1 1 :: acc, Plain)
  | Some (acc, QMin lo) =>
      if isdigit c then Some (acc, QMin (push_digit lo c))
      else if Ascii.eqb c ","%char then
        Some (acc, QMax match lo with Some k => k | None => O end None)
      else if Ascii.eqb c "}"%char then
        match lo with
        | Some k => match set_bounds k k acc with
                    | Some acc' => Some (acc', Plain)
                    | None => None
                    end
        | None => None
        end
      else None
  | Some (acc, QMax lo hi) =>
      if isdigit c then Some (acc, QMax lo (push_digit hi c))
      else if Ascii.eqb c "}"%char then
        match hi with
        | Some k => match set_bounds lo k acc with
                    | Some acc' => Some (acc', Plain)
                    | None => None
                    end
        | None => None
        end
      else None
  end.

(** [re.compile]; [None] for a pattern outside the fragment. *)
Definition compile (pattern : str) : option regex :=
  match fold_left compile_step pattern (Some ([], Plain)) with
  | Some (acc, Plain) => Some (rev acc)
  | _ => None
  end.

(** *** Matching *)

Definition atom_matches (a : atom) (c : ascii) : bool :=
  match a with
  | Chr x => Ascii.eqb x c
  | Digit => isdigit c
  end.

(** The length matched at the head of [t] by [a{lo,hi}] followed by what
    [k] matches: as many repetitions as possible first. *)
Fixpoint match_rep (k : str -> option nat) (a : atom) (lo hi : nat)
  (t : str) : option nat :=
  let stop := if Nat.eqb lo 0 then k t else None in
  match hi, t with
  | S hi', c :: t' =>
      if atom_matches a c then
        match match_rep k a (Nat.pred lo) hi' t' with
        | Some n => Some (S n)
        | None => stop
        end
      else stop
  | _, _ => stop
  end.

Fixpoint match_here (r : regex) (t : str) : option nat :=
  match r with
  | [] => Some O
  | it :: r' =>
      match_rep (match_here r') (it_atom it) (it_min it) (it_max it) t
  end.

Fixpoint search_from (r : regex) (t : str) : bool :=
  match match_here r t with
  | Some _ => true
  | None =>
      match t with
      | [] => false
      | _ :: t' => search_from r t'
      end
  end.

(** The matches of [r] in [t], left to right, none overlapping; [skip]
    characters still belong to the previous match. *)
Fixpoint findall_from (r : regex) (skip : nat) (t : str) : list str :=
  match t with
  | [] =>
      match skip, match_here r [] with
      | O, Some _ => [[]]
      | _, _ => []
      end
  | _ :: t' =>
      match skip with
      | S k => findall_from r k t'
      | O =>
          match match_here r t with
          | Some (S n) => firstn (S n) t :: findall_from r n t'
          | Some O => [] :: findall_from r O t'
          | None => findall_from r O t'
          end
      end
  end.

Definition re_error : exn := ValueError (lit "re.error").

(** [re.search(pattern, t)], as the truth value the source tests. *)
Definition search (pattern t : str) : result bool :=
  match compile pattern with
  | Some r => Ok (search_from r t)
  | None => Raise re_error
  end.

(** [re.findall(pattern, t)] *)
Definition findall (pattern t : str) : result (list str) :=
  match compile pattern with
  | Some r => Ok (findall_from r O t)
  | None => Raise re_error
  end.

End Re.


(** ** urllib.parse

    [urlparse] is the interpreter's library, not code of the repository;
    it is embedded from CPython 3.11's [urllib/parse.py] ([urlsplit],
    [_splitnetloc], [_splitparams], [urlparse]) for [str] arguments with
    the default [scheme=''] and [allow_fragments=True].  Two checks of
    that file are not spelled out.
    - [_checknetloc] raises only when NFKC normalisation of the authority
      yields one of [/?#@:]; no code point below 256 normalises to one of
      these, so on the strings of this embedding it returns normally.
    - The validation of a bracketed host (present since CPython 3.11.4
      and in patched earlier releases) rests on the [ipaddress] module;
      it is the parameter [check_bracketed_netloc], consulted only when
      the authority holds both brackets. *)

Module UrlLib.

Record ParseResult : Type := {
  scheme : str;
  netloc : str;
  path : str;
  params : str;
  query : str;
  fragment : str
}.

Class BracketCheck : Type :=
  check_bracketed_netloc : str -> result unit.

(** An interpreter whose [urlsplit] validates no bracketed host. *)
Definition no_bracket_validation : BracketCheck := fun _ => Ok tt.

Definition uses_params : list str :=
  map lit [""; "ftp"; "hdl"; "prospero"; "http"; "imap";
           "https"; "shttp"; "rtsp"; "rtspu"; "sip"; "sips";
           "mms"; "sftp"; "tel"]%string.

Definition scheme_chars : str :=
  lit "abcdefghijklmnopqrstuvwxyzABCDEFGHIJKLMNOPQRSTUVWXYZ0123456789+-.".

(** A member of [_WHATWG_C0_CONTROL_OR_SPACE]. *)
Definition c0_control_or_space (c : ascii) : bool :=
  (N_of_ascii c <=? 32)%N.

Definition unsafe_url_bytes_to_remove : list ascii :=
  [ascii_of_nat 9; ascii_of_nat 13; ascii_of_nat 10].

Definition is_netloc_delim (c : ascii) : bool :=
  Ascii.eqb c "/"%char || Ascii.eqb c "?"%char || Ascii.eqb c "#"%char.

(** [_splitnetloc(url, 2)] on the text after the two slashes: the
    authority runs to the first of [/], [?], [#]. *)
Fixpoint splitnetloc (t : str) : str * str :=
  match t with
  | [] => ([], [])
  | c :: t' =>
      if is_netloc_delim c then ([], t)
      else let '(n, r) := splitnetloc t' in (c :: n, r)
  end.

(** [_splitparams(url)], called when [url] holds a semicolon. *)
Definition splitparams (url : str) : str * str :=
  if has_char "/"%char url then
    let '(before, _, last) := rpartition "/"%char url in
    let '(h, found, r) := partition ";"%char last in
    if found then (before ++ "/"%char :: h, r) else (url, [])
  else
    let '(h, _, r) := partition ";"%char url in (h, r).

Section Parse.
Context {bc : BracketCheck}.

(** [urlsplit(url)]: scheme, authority, path, query, fragment. *)
Definition urlsplit (url : str) : result (str * str * str * str * str) :=
  let url := lstrip_with c0_control_or_space url in
  let url := fold_left (fun u b => replace b [] u)
               unsafe_url_bytes_to_remove url in
  let '(before, found, after) := partition ":"%char url in
  let '(scheme, url) :=
    if found && truthy before
       && match url with c :: _ => isascii_alpha c | [] => false end
       && forallb (fun c => has_char c scheme_chars) before
    then (lower before, after)
    else ([], url) in
  split <-
    match url with
    | "/"%char :: "/"%char :: rest =>
        let '(netloc, url) := splitnetloc rest in
        let open := has_char "["%char netloc in
        let close := has_char "]"%char netloc in
        if (open && negb close) || (close && negb open)
        then Raise (ValueError (lit "Invalid IPv6 URL"))
        else
          _ <- (if open && close then check_bracketed_netloc netloc
                else Ok tt) ;;
          Ok (netloc, url)
    | _ => Ok ([], url)
    end ;;
  let '(netloc, url) := split in
  let '(url, fragment) :=
    let '(h, found, r) := partition "#"%char url in
    if found then (h, r) else (url, []) in
  let '(url, query) :=
    let '(h, found, r) := partition "?"%char url in
    if found then (h, r) else (url, []) in
  Ok (scheme, netloc, url, query, fragment).

Definition urlparse (url : str) : result ParseResult :=
  splitresult <- urlsplit url ;;
  let '(scheme, netloc, url, query, fragment) := splitresult in
  let '(url, params) :=
    if existsb (str_eqb scheme) uses_params && has_char ";"%char url
    then splitparams url
    else (url, []) in
  Ok {| scheme := scheme; netloc := netloc; path := url;
        params := params; query := query; fragment := fragment |}.

End Parse.

End UrlLib.

(** ** backend/utils/security_utils.py *)

Module security_utils.
Import UrlLib.

(** [sanitize_input(user_input)] *)
Definition sanitize_input (user_input : value) : result str :=
  match user_input with
  | PyStr t =>
      (* Remove null bytes *)
      let sanitized := replace Ascii.zero [] t in
      (* HTML escape *)
      let sanitized := Html.escape sanitized in
      (* Limit length *)
      let max_length := 2048 in
      let sanitized :=
        if len sanitized >? max_length
        then slice_to (Z.to_nat max_length) sanitized
        else sanitized in
      Ok (strip sanitized)
  | other => to_str other
  end.

Definition malicious_patterns : list str :=
  map lit ["javascript:"; "data:"; "vbscript:"; "file:"; "<script";
           "</script>"; "<iframe"; "</iframe>"; "eval\("; "alert\("]%string.

Definition malicious_message (pattern : str) : str :=
  lit "URL contains potentially malicious content: " ++ pattern.

(** The loop over [malicious_patterns]: [Some] verdict when it returns
    from inside the loop, [None] when it runs to its end. *)
Fixpoint scan_malicious (patterns : list str) (url_lower : str)
  : result (option (bool * str)) :=
  match patterns with
  | [] => Ok None
  | pattern :: rest =>
      found <- Re.search pattern url_lower ;;
      if found then Ok (Some (false, malicious_message pattern))
      else scan_malicious rest url_lower
  end.

(** A request body: either some value that is no dict, or a dict, kept
    as its items. *)
Inductive request_data : Type :=
| NotADict
| Dict (items : list (str * value)).

Fixpoint dict_get (key : str) (items : list (str * value)) : option value :=
  match items with
  | [] => None
  | (k, v) :: rest => if str_eqb k key then Some v else dict_get key rest
  end.

(** The allowlist of [is_safe_domain]; a set in the source, used for
    membership only. *)
Definition safe_domains : list str :=
  map lit ["google.com"; "gmail.com"; "youtube.com";
           "facebook.com"; "instagram.com"; "whatsapp.com";
           "amazon.com"; "aws.amazon.com";
           "microsoft.com"; "office.com"; "outlook.com";
           "apple.com"; "icloud.com";
           "github.com"; "stackoverflow.com";
           "wikipedia.org"; "wikimedia.org";
           "linkedin.com"; "twitter.com";
           "paypal.com"; "ebay.com";
           "netflix.com"; "spotify.com"]%string.

(** The loop of [is_safe_domain] over [i]: [domain_parts] is what is left
    of the parts from index [i] on. *)
Fixpoint scan_parent_domains (domain_parts : list str) : bool :=
  match domain_parts with
  | [] => false
  | _ :: rest =>
      let test_domain := join (lit ".") domain_parts in
      if existsb (str_eqb test_domain) safe_domains then true
      else scan_parent_domains rest
  end.

(** [is_safe_domain(domain)] *)
Definition is_safe_domain (domain : str) : bool :=
  if negb (truthy domain) then false
  else
    let domain_parts := split "."%char (lower domain) in
    scan_parent_domains domain_parts.

Definition suspicious_tlds : list str :=
  map lit [".tk"; ".ml"; ".cf"; ".ga"; ".ph"; ".cc"]%string.

Definition shorteners : list str :=
  map lit ["bit.ly"; "tinyurl.com"; "t.co"; "goo.gl"; "ow.ly"; "is.gd"]%string.

(** [suspicious.append(tag)] when [cond] holds. *)
Definition tag_if (cond : bool) (tag : str) (suspicious : list str)
  : list str :=
  if cond then suspicious ++ [tag] else suspicious.

(** [rate_limit_check(ip_address, max_requests, time_window)] *)
Definition rate_limit_check (ip_address : str) (max_requests time_window : Z)
  : bool := true.

(** What [get_client_ip] reads of a Flask request: the header mapping, as
    the lookup of a header by name, and the peer address, [None] when the
    server knows none. *)
Record flask_request : Type := {
  headers : str -> option str;
  remote_addr : option str
}.

(** [get_client_ip(request)] *)
Definition get_client_ip (request : flask_request) : result str :=
  ip <-
    match headers request (lit "X-Forwarded-For") with
    | Some forwarded =>
        first <- getitem (split ","%char forwarded) 0 ;;
        Ok (Some (strip first))
    | None =>
        match headers request (lit "X-Real-IP") with
        | Some real => Ok (Some real)
        | None => Ok (remote_addr request)
        end
    end ;;
  (* ip or 'unknown' *)
  match ip with
  | Some t => if truthy t then Ok t else Ok (lit "unknown")
  | None => Ok (lit "unknown")
  end.

Section Validation.
Context {bc : BracketCheck}.

(** [validate_url(url)] returns [(is_valid, error_message)]. *)
Definition validate_url (url : str) : result (bool * str) :=
  if negb (truthy url) then Ok (false, lit "URL cannot be empty")
  else if len url >? 2048
  then Ok (false, lit "URL too long (max 2048 characters)")
  else
    let url_lower := lower url in
    hit <- scan_malicious malicious_patterns url_lower ;;
    match hit with
    | Some verdict => Ok verdict
    | None =>
        checked <-
          try_except
            (parsed <- urlparse url ;;
             if negb (truthy (scheme parsed))
                || negb (truthy (netloc parsed))
             then Ok (Some (false, lit "Invalid URL format"))
             else if negb (existsb (str_eqb (scheme parsed))
                             [lit "http"; lit "https"])
             then Ok (Some (false,
                        lit "Only HTTP and HTTPS URLs are supported"))
             else Ok None)
            (fun e =>
               Ok (Some (false, lit "URL parsing error: " ++ exn_str e))) ;;
        match checked with
        | Some verdict => Ok verdict
        | None => Ok (true, [])
        end
    end.

(** [validate_api_request(request_data)] returns
    [(is_valid, error_message, sanitized_data)]. *)
Definition validate_api_request (data : request_data)
  : result (bool * str * list (str * str)) :=
  match data with
  | NotADict => Ok (false, lit "Request data must be a JSON object", [])
  | Dict items =>
      match dict_get (lit "url") items with
      | None => Ok (false, lit "Missing required field: url", [])
      | Some url =>
          (* Sanitize URL *)
          sanitized_url <- sanitize_input url ;;
          (* Validate URL *)
          verdict <- validate_url sanitized_url ;;
          let '(is_valid, error_msg) := verdict in
          if negb is_valid then Ok (false, error_msg, [])
          else
            let sanitized_data := [(lit "url", sanitized_url)] in
            Ok (true, [], sanitized_data)
      end
  end.

(** [detect_suspicious_patterns(url)] *)
Definition detect_suspicious_patterns (url : str) : result (list str) :=
  let suspicious := [] in
  (* Check for IP addresses *)
  let ip_pattern := lit "\d{1,3}\.\d{1,3}\.\d{1,3}\.\d{1,3}" in
  ip_found <- Re.search ip_pattern url ;;
  let suspicious :=
    tag_if ip_found (lit "IP address instead of domain") suspicious in
  (* Check for excessive subdomains *)
  parsed <- urlparse url ;;
  let suspicious :=
    tag_if (count "."%char (netloc parsed) >? 4) (lit "Excessive subdomains")
      suspicious in
  (* Check for suspicious TLDs *)
  let suspicious :=
    fold_left
      (fun suspicious tld =>
         tag_if (endswith tld url) (lit "Suspicious TLD: " ++ tld) suspicious)
      suspicious_tlds suspicious in
  (* Check for URL shorteners *)
  let suspicious :=
    fold_left
      (fun suspicious shortener =>
         tag_if (contains shortener (netloc parsed))
           (lit "URL shortener: " ++ shortener) suspicious)
      shorteners suspicious in
  (* Check for homograph attacks (mixed scripts) *)
  let suspicious :=
    tag_if (existsb non_ascii url)
      (lit "Contains non-ASCII characters (possible homograph attack)")
      suspicious in
  (* Check for excessive length *)
  let suspicious := tag_if (len url >? 100) (lit "Unusually long URL") suspicious in
  Ok suspicious.

End Validation.

End security_utils.

(** ** backend/feature_extraction.py *)

Module feature_extraction.
Import UrlLib.

Definition ip_pattern : str := lit "\d{1,3}\.\d{1,3}\.\d{1,3}\.\d{1,3}".

Definition brands : list str :=
  map lit ["google"; "facebook"; "paypal"; "amazon"; "netflix";
           "microsoft"; "apple"]%string.

Definition typo_patterns (brand : str) : list str :=
  [ replace "o"%char (lit "0") brand;
    replace "l"%char (lit "1") brand;
    replace "i"%char (lit "1") brand;
    replace "e"%char (lit "3") brand;
    brand ++ lit "-login";
    brand ++ lit "-verify";
    brand ++ lit "-secure";
    lit "secure-" ++ brand ].

(** The inner loop over [typo_patterns], threading the variable
    [has_brand_typo]; it stops at the first pattern that sets it. *)
Fixpoint scan_patterns (patterns : list str) (brand domain_lower : str)
  (has_brand_typo : Z) : Z :=
  match patterns with
  | [] => has_brand_typo
  | pattern :: rest =>
      if contains pattern domain_lower && negb (contains brand domain_lower)
      then 1
      else scan_patterns rest brand domain_lower has_brand_typo
  end.

(** The outer loop over [brands]; it stops once [has_brand_typo] is
    set. *)
Fixpoint scan_brands (brands : list str) (domain_lower : str)
  (has_brand_typo : Z) : Z :=
  match brands with
  | [] => has_brand_typo
  | brand :: rest =>
      let has_brand_typo :=
        scan_patterns (typo_patterns brand) brand domain_lower
          has_brand_typo in
      if negb (has_brand_typo =? 0) then has_brand_typo
      else scan_brands rest domain_lower has_brand_typo
  end.

(** Feature 7 as a function of the authority. *)
Definition brand_typo (domain : str) : Z :=
  let has_brand_typo := 0 in
  let domain_lower := lower domain in
  scan_brands brands domain_lower has_brand_typo.

Section Extraction.
Context {bc : BracketCheck}.

(** [extract_features(url)] returns
    [[url_length, has_ip, has_at, num_digits, has_https,
      num_subdomains, has_brand_typo]]. *)
Definition extract_features (url : str) : result (list Z) :=
  parsed <- urlparse url ;;
  let domain := netloc parsed in
  let path := path parsed in
  let url_length := len url in
  ip_found <- Re.search ip_pattern domain ;;
  let has_ip := if ip_found then 1 else 0 in
  let has_at := if has_char "@"%char url then 1 else 0 in
  digits <- Re.findall (lit "\d") url ;;
  let num_digits := Z.of_nat (List.length digits) in
  let has_https := if str_eqb (scheme parsed) (lit "https") then 1 else 0 in
  let num_subdomains :=
    if truthy domain then count "."%char domain - 1 else 0 in
  let has_brand_typo := brand_typo domain in
  Ok [url_length; has_ip; has_at; num_digits; has_https;
      num_subdomains; has_brand_typo].

End Extraction.

End feature_extraction.

(** ** The classifier

    The model is an opaque object loaded from [model.pkl]; the code uses
    two of its methods.  Both take a batch of feature vectors and return
    one label, and one row of class probabilities, per vector. *)

Module Sklearn.

Record classifier : Type := {
  predict : list (list Z) -> list Z;
  predict_proba : list (list Z) -> list (list PrimFloat.float)
}.

End Sklearn.

(** ** backend/app.py: the scoring path of [/predict] *)

Module app.
Import UrlLib.

(** The global [model]: [None] until a model is loaded. *)
Definition model_ref : Type := option Sklearn.classifier.

(** [calculate_mock_score(features)] *)
Definition calculate_mock_score (features : list Z) : result Z :=
  let score := 0 in
  url_length <- getitem features 0 ;;
  has_ip <- getitem features 1 ;;
  has_at <- getitem features 2 ;;
  num_digits <- getitem features 3 ;;
  has_https <- getitem features 4 ;;
  num_subdomains <- getitem features 5 ;;
  has_brand_typo <- getitem features 6 ;;
  let score := if url_length >? 75 then score + 25 else score in
  let score := if has_ip =? 1 then score + 30 else score in
  let score := if has_at =? 1 then score + 20 else score in
  let score := if has_https =? 0 then score + 15 else score in
  let score := if has_brand_typo =? 1 then score + 35 else score in
  let score := if num_subdomains >? 3 then score + 10 else score in
  Ok (Z.min score 100).

Definition reason_long_url : str :=
  lit "🔗 Unusually long URL detected (potential obfuscation)".
Definition reason_ip : str :=
  lit "🌐 URL contains IP address instead of domain name".
Definition reason_at : str :=
  lit "⚠️ URL contains @ symbol (potential redirect)".
Definition reason_no_https : str :=
  lit "🔒 Not using secure HTTPS protocol".
Definition reason_brand : str :=
  lit "🎭 Possible brand impersonation detected".
Definition reason_subdomains : str :=
  lit "📡 Excessive number of subdomains".
Definition reason_digits : str :=
  lit "🔢 High number of digits in URL (suspicious pattern)".
Definition reason_standard : str :=
  lit "✅ URL appears to follow standard patterns".

(** [reasons.append(r)] when [cond] holds. *)
Definition append_if (cond : bool) (r : str) (reasons : list str)
  : list str :=
  if cond then reasons ++ [r] else reasons.

(** [get_reasons(features)] *)
Definition get_reasons (features : list Z) : result (list str) :=
  let reasons := [] in
  url_length <- getitem features 0 ;;
  has_ip <- getitem features 1 ;;
  has_at <- getitem features 2 ;;
  num_digits <- getitem features 3 ;;
  has_https <- getitem features 4 ;;
  num_subdomains <- getitem features 5 ;;
  has_brand_typo <- getitem features 6 ;;
  let reasons := append_if (url_length >? 75) reason_long_url reasons in
  let reasons := append_if (has_ip =? 1) reason_ip reasons in
  let reasons := append_if (has_at =? 1) reason_at reasons in
  let reasons := append_if (has_https =? 0) reason_no_https reasons in
  let reasons := append_if (has_brand_typo =? 1) reason_brand reasons in
  let reasons := append_if (num_subdomains >? 3) reason_subdomains reasons in
  let reasons := append_if (num_digits >? 10) reason_digits reasons in
  let reasons :=
    match reasons with
    | [] => reasons ++ [reason_standard]
    | _ :: _ => reasons
    end in
  Ok reasons.

(** Lines 83 to 106 of [predict]: the status, the confidence and the
    phishing score, from the model when one is loaded and from
    [calculate_mock_score] otherwise. *)
Definition score_features (model : model_ref) (features : list Z)
  : result (str * PrimFloat.float * Z) :=
  match model with
  | Some model =>
      prediction <- getitem (Sklearn.predict model [features]) 0 ;;
      probability <- getitem (Sklearn.predict_proba model [features]) 0 ;;
      if prediction =? 1 then
        let status := lit "Phishing" in
        confidence <- getitem probability 1 ;;
        phishing_score <- int_of_float (PrimFloat.mul confidence 100) ;;
        Ok (status, confidence, phishing_score)
      else
        let status := lit "Safe" in
        confidence <- getitem probability 0 ;;
        phishing_score <-
          int_of_float (PrimFloat.mul (PrimFloat.sub 1 confidence) 100) ;;
        Ok (status, confidence, phishing_score)
  | None =>
      phishing_score <- calculate_mock_score features ;;
      let confidence := 0.8%float in
      let status :=
        if phishing_score >=? 70 then lit "Phishing" else lit "Safe" in
      Ok (status, confidence, phishing_score)
  end.

(** [round(x, ndigits)].  The built-in dispatches on the type of [x]
    (a Python float, or the float type of the model's library), so the
    reported number is kept as this application. *)
Inductive rounded : Type :=
| Round (x : PrimFloat.float) (ndigits : Z).

Definition feature_names : list str :=
  map lit ["url_length"; "has_ip"; "has_at"; "num_digits";
           "has_https"; "num_subdomains"; "has_brand_typo"]%string.

(** The body of a successful response, without its timestamp. *)
Record prediction_body : Type := {
  url : str;
  prediction : str;
  confidence : rounded;
  phishing_score : Z;
  features : list (str * Z);
  reasons : list str;
  model_used : str
}.

Inductive response : Type :=
| Json200 (body : prediction_body)
| Json400 (error : str)
| Json500 (error : str).

Section Predict.
Context {bc : BracketCheck}.

(** [predict()] for a request whose ['url'] is the string [url] (the
    empty string when the field is absent). *)
Definition predict (model : model_ref) (url : str)
  : response :=
  let outcome :=
    if negb (truthy url) then Ok (Json400 (lit "URL is required"))
    else
      features <- feature_extraction.extract_features url ;;
      scored <- score_features model features ;;
      let '(status, confidence, phishing_score) := scored in
      reasons <- get_reasons features ;;
      let feature_dict := combine feature_names features in
      Ok (Json200 {|
            url := url;
            prediction := status;
            confidence := Round confidence 3;
            phishing_score := phishing_score;
            features := feature_dict;
            reasons := reasons;
            model_used :=
              match model with
              | Some _ => lit "Random Forest"
              | None => lit "Mock"
              end |}) in
  match outcome with
  | Ok r => r
  | Raise e => Json500 (lit "Prediction failed: " ++ exn_str e)
  end.

End Predict.

End app.

(** ** backend/train_model.py: feature extraction over the training set *)

Module train_model.
Import UrlLib.

Section Training.
Context {bc : BracketCheck}.

(** [extract_features_from_urls(urls)]: the rows collected by the loop,
    before they are packed into an array. *)
Definition extract_features_from_urls (urls : list str) : list (list Z) :=
  let features_list := [] in
  fold_left
    (fun features_list url =>
       match feature_extraction.extract_features url with
       | Ok features => features_list ++ [features]
       | Raise e =>
           (* Use default values if extraction fails *)
           features_list ++ [repeat 0 7]
       end)
    urls features_list.

End Training.

End train_model.

(** ** backend/utils/data_preprocessing.py *)

Module data_preprocessing.
Import UrlLib.

(** A float the source obtains by true division of two integers,
    possibly scaled by an integer afterwards; kept as the operands. *)
Inductive quotient : Type :=
| TrueDiv (numerator denominator : Z)
| Times (q : quotient) (factor : Z).

(** The dict [get_url_statistics] returns for a non-empty list. *)
Record url_statistics : Type := {
  total_urls : Z;
  unique_domains : Z;
  avg_length : quotient;
  min_length : Z;
  max_length : Z;
  https_percentage : quotient
}.

(** [min(l)] and [max(l)] of a non-empty list, given as head and tail. *)
Definition list_min (first : Z) (rest : list Z) : Z := fold_left Z.min rest first.
Definition list_max (first : Z) (rest : list Z) : Z := fold_left Z.max rest first.

(** [sum(l)] *)
Definition list_sum (l : list Z) : Z := fold_left Z.add l 0.

Section Preprocessing.
Context {bc : BracketCheck}.

(** [preprocess_url(url)] *)
Definition preprocess_url (url : str) : result str :=
  if negb (truthy url) then Ok []
  else
    (* Strip whitespace *)
    let url := strip url in
    (* Add protocol if missing *)
    let url :=
      if negb (startswith (lit "http://") url || startswith (lit "https://") url)
      then lit "http://" ++ url
      else url in
    parsed <- urlparse url ;;
    let cleaned_url :=
      lower (scheme parsed) ++ lit "://" ++ lower (netloc parsed)
      ++ path parsed ++ params parsed ++ query parsed ++ fragment parsed in
    Ok cleaned_url.

(** [extract_domain(url)]: the bare [except] turns every exception into
    the empty text. *)
Definition extract_domain (url : str) : str :=
  match urlparse url with
  | Ok parsed => lower (netloc parsed)
  | Raise _ => []
  end.

(** [get_url_statistics(urls)]; [None] is the empty dict. *)
Definition get_url_statistics (urls : list str) : option url_statistics :=
  match urls with
  | [] => None
  | first :: rest =>
      let lengths := map len urls in
      let domains := map extract_domain urls in
      let unique_domains :=
        Z.of_nat (List.length (nodup (list_eq_dec ascii_dec) domains)) in
      let https_count :=
        list_sum (map (fun url =>
                         if startswith (lit "https://") url then 1 else 0)
                    urls) in
      Some {|
        total_urls := Z.of_nat (List.length urls);
        unique_domains := unique_domains;
        avg_length := TrueDiv (list_sum lengths) (Z.of_nat (List.length lengths));
        min_length := list_min (len first) (map len rest);
        max_length := list_max (len first) (map len rest);
        https_percentage :=
          Times (TrueDiv https_count (Z.of_nat (List.length urls))) 100 |}
  end.

End Preprocessing.

End data_preprocessing.

(** ** The specification's vocabulary *)

Import UrlLib.
Import feature_extraction.

(** The Iverson bracket. *)
Definition iverson (b : bool) : Z := if b then 1 else 0.

Definition clamp (lo hi x : Z) : Z := Z.max lo (Z.min hi x).

(** The weighted rule sum of the heuristic scorer, as the specification
    writes it. *)
Definition weighted_sum
  (url_length has_ip has_at has_https has_brand_typo num_subdomains : Z) : Z :=
  25 * iverson (url_length >? 75)
  + 30 * iverson (has_ip =? 1)
  + 20 * iverson (has_at =? 1)
  + 15 * iverson (has_https =? 0)
  + 35 * iverson (has_brand_typo =? 1)
  + 10 * iverson (num_subdomains >? 3).

(** Occurrence of one text inside another. *)
Definition substring (p t : str) : Prop :=
  exists pre post, t = pre ++ p ++ post.




(** Some pattern of the code's list for [brand] occurs in [d] while
    [brand] itself does not. *)
Definition typo_match (brand d : str) : Prop :=
  exists pattern,
    In pattern (typo_patterns brand) /\ substring pattern d
    /\ ~ substring brand d.

(** The catalogue of the explanation generator: its seven predicates, in
    the order of the specification, each with the text it contributes. *)
Definition reason_catalogue
  (url_length has_ip has_at num_digits has_https num_subdomains
     has_brand_typo : Z) : list (bool * str) :=
  [ (url_length >? 75, app.reason_long_url);
    (has_ip =? 1, app.reason_ip);
    (has_at =? 1, app.reason_at);
    (has_https =? 0, app.reason_no_https);
    (has_brand_typo =? 1, app.reason_brand);
    (num_subdomains >? 3, app.reason_subdomains);
    (num_digits >? 10, app.reason_digits) ].

(** The texts of the predicates that hold, in catalogue order. *)
Definition fired (catalogue : list (bool * str)) : list str :=
  map snd (filter fst catalogue).

(** The characters [html.escape] rewrites. *)
Definition html_reserved : str :=
  ["&"; "<"; ">"; ascii_of_nat 34; "'"]%char.

(** No character of [t] is one that [html.escape] rewrites. *)
Definition reserved_free (t : str) : bool :=
  forallb (fun c => negb (has_char c html_reserved)) t.

(** The regular expression that matches exactly the text [text]. *)
Definition literal (text : str) : Re.regex :=
  map (fun c => Re.Item (Re.Chr c) 1 1) text.

(** The dangerous patterns of the validator: each pattern as the source
    writes it, with the text it stands for. *)
Definition dangerous : list (str * str) :=
  [ (lit "javascript:", lit "javascript:");
    (lit "data:", lit "data:");
    (lit "vbscript:", lit "vbscript:");
    (lit "file:", lit "file:");
    (lit "<script", lit "<script");
    (lit "</script>", lit "</script>");
    (lit "<iframe", lit "<iframe");
    (lit "</iframe>", lit "</iframe>");
    (lit "eval\(", lit "eval(");
    (lit "alert\(", lit "alert(") ].

(** No dangerous text occurs in [t]. *)
Definition harmless (t : str) : Prop :=
  forall d, In d dangerous -> ~ substring (snd d) t.

(** The verdict of the parsing stage of [validate_url]. *)
Definition parse_verdict (outcome : result ParseResult) : bool * str :=
  match outcome with
  | Raise e => (false, lit "URL parsing error: " ++ exn_str e)
  | Ok parsed =>
      if negb (truthy (scheme parsed)) || negb (truthy (netloc parsed))
      then (false, lit "Invalid URL format")
      else if negb (existsb (str_eqb (scheme parsed)) [lit "http"; lit "https"])
      then (false, lit "Only HTTP and HTTPS URLs are supported")
      else (true, [])
  end.


(** A URL of 2053 characters whose first 2048 form a well-formed http
    URL. *)
Definition overlong_url : str := lit "http://a.com/" ++ repeat "a"%char 2040.

(** The rational number a finite binary64 value stands for. *)
Definition float_value (x : float) : option Q :=
  match Prim2SF x with
  | S754_zero _ => Some (Qmake 0 1)
  | S754_finite s m e =>
      let magnitude :=
        if 0 <=? e then inject_Z (Z.pos m * 2 ^ e)
        else Qmake (Z.pos m) (2 ^ Z.to_pos (- e)) in
      Some (if s then Qopp magnitude else magnitude)
  | S754_infinity _ | S754_nan => None
  end.

(** The integer part of a rational, towards zero. *)
Definition Qtrunc (q : Q) : Z := Z.quot (Qnum q) (Z.pos (Qden q)).

(** The nearest integer, a tie going to the even one: Python's [round]
    with one argument. *)
Definition Qround_half_even (q : Q) : Z :=
  let d := Z.pos (Qden q) in
  let f := Qnum q / d in
  match 2 * (Qnum q mod d) ?= d with
  | Lt => f
  | Gt => f + 1
  | Eq => if Z.even f then f else f + 1
  end.

(** A loaded model that labels every vector phishing with probability
    0.999. *)
Definition sure_classifier : Sklearn.classifier :=
  {| Sklearn.predict := fun batch => map (fun _ => 1) batch;
     Sklearn.predict_proba := fun batch => map (fun _ => [0.001; 0.999]%float) batch |}.

(** ** Further vocabulary *)

(** The six indicators the heuristic scorer weighs, as truth values. *)
Definition scoring_indicators
  (url_length has_ip has_at has_https has_brand_typo num_subdomains : Z)
  : list bool :=
  [ url_length >? 75; has_ip =? 1; has_at =? 1; has_https =? 0;
    has_brand_typo =? 1; num_subdomains >? 3 ].

(** How many truth values of a list hold. *)
Definition count_true (l : list bool) : Z :=
  Z.of_nat (List.length (filter (fun b => b) l)).

(** The texts a regular expression of the fragment matches: one block
    per item, of a length within the item's bounds and of characters the
    item's atom accepts. *)
Inductive matches : Re.regex -> str -> Prop :=
| matches_nil : matches [] []
| matches_item it r block w :
    (Re.it_min it <= List.length block <= Re.it_max it)%nat ->
    Forall (fun c => Re.atom_matches (Re.it_atom it) c = true) block ->
    matches r w ->
    matches (it :: r) (block ++ w).

(** [w] occurs in [t] as a match of [r]. *)
Definition occurs (r : Re.regex) (t : str) : Prop :=
  exists pre w post, t = pre ++ w ++ post /\ matches r w.

(** One to three characters of the class [\d], as the engine of [re]
    applies it. *)
Definition digit_group (d : str) : Prop :=
  (1 <= List.length d <= 3)%nat
  /\ Forall (fun c => Re.atom_matches Re.Digit c = true) d.

(** Four such groups separated by dots. *)
Definition dotted_quad (w : str) : Prop :=
  exists d1 d2 d3 d4,
    w = d1 ++ lit "." ++ d2 ++ lit "." ++ d3 ++ lit "." ++ d4
    /\ digit_group d1 /\ digit_group d2 /\ digit_group d3 /\ digit_group d4.

(** The compiled [ip_pattern]. *)
Definition ip_regex : Re.regex :=
  [ Re.Item Re.Digit 1 3; Re.Item (Re.Chr ".") 1 1;
    Re.Item Re.Digit 1 3; Re.Item (Re.Chr ".") 1 1;
    Re.Item Re.Digit 1 3; Re.Item (Re.Chr ".") 1 1;
    Re.Item Re.Digit 1 3 ].

(** The number of characters of [t] that satisfy [p]. *)
Definition count_if (p : ascii -> bool) (t : str) : Z :=
  Z.of_nat (List.length (filter p t)).

(** The URL as [urlsplit] works on it: leading C0 controls and spaces
    stripped, tabs and line breaks removed. *)
Definition cleaned (url : str) : str :=
  fold_left (fun u b => replace b [] u) unsafe_url_bytes_to_remove
    (lstrip_with c0_control_or_space url).

(** The scheme [urlsplit] recognises at the head of a cleaned URL, and
    what follows it. *)
Definition split_scheme (u : str) : str * str :=
  let '(before, found, after) := partition ":"%char u in
  if found && truthy before
     && match u with c :: _ => isascii_alpha c | [] => false end
     && forallb (fun c => has_char c scheme_chars) before
  then (lower before, after)
  else ([], u).

(** The authority [urlsplit] reads after the scheme. *)
Definition authority_of (u : str) : str :=
  match u with
  | "/"%char :: "/"%char :: rest => fst (splitnetloc rest)
  | _ => []
  end.

(** Somewhere in [t] stands a dotted quad. *)
Definition has_dotted_quad (t : str) : Prop :=
  exists pre w post, t = pre ++ w ++ post /\ dotted_quad w.

(** The character substitutions of the brand-typo candidates. *)
Definition typo_substitutions : list (ascii * str) :=
  [ ("o"%char, lit "0"); ("l"%char, lit "1"); ("i"%char, lit "1");
    ("e"%char, lit "3") ].

(** The four dangerous patterns that start with an angle bracket. *)
Definition markup_patterns : list str :=
  map lit ["<script"; "</script>"; "<iframe"; "</iframe>"]%string.

(** The catalogue of [detect_suspicious_patterns]: its sixteen tests on a
    URL and the authority read from it, in the order of the source, each
    with the tag it contributes. *)
Definition tag_catalogue (url authority : str) : list (bool * str) :=
  [ (Re.search_from ip_regex url, lit "IP address instead of domain");
    (count "."%char authority >? 4, lit "Excessive subdomains") ]
  ++ map (fun tld => (endswith tld url, lit "Suspicious TLD: " ++ tld))
       security_utils.suspicious_tlds
  ++ map (fun shortener =>
            (contains shortener authority, lit "URL shortener: " ++ shortener))
       security_utils.shorteners
  ++ [ (existsb non_ascii url,
        lit "Contains non-ASCII characters (possible homograph attack)");
       (len url >? 100, lit "Unusually long URL") ].

Unset Implicit Arguments.

(** ** Facts about the built-ins *)

Lemma startswith_spec p t :
  startswith p t = true <-> exists post, t = p ++ post.
Proof.
  revert t; induction p as [|a p IH]; intros t; simpl.
  - split; [intros _; exists t; reflexivity | reflexivity].
  - destruct t as [|b t].
    + split; [discriminate | intros [post H]; discriminate].
    + rewrite andb_true_iff, Ascii.eqb_eq, IH. split.
      * intros [-> [post ->]]. exists post; reflexivity.
      * intros [post H]. injection H as -> ->. split; [reflexivity | eauto].
Qed.

Lemma contains_spec p t : contains p t = true <-> substring p t.
Proof.
  split.
  - induction t as [|c t IH].
    + simpl. rewrite orb_false_r. intros H.
      apply startswith_spec in H as [post ->]. exists [], post; reflexivity.
    + simpl. intros H. apply orb_true_iff in H as [H|H].
      * apply startswith_spec in H as [post H]. exists [], post; exact H.
      * destruct (IH H) as (pre & post & ->). exists (c :: pre), post; reflexivity.
  - intros (pre & post & ->). induction pre as [|c pre IH].
    + assert (H : startswith p (p ++ post) = true)
        by (apply startswith_spec; eauto).
      simpl. destruct (p ++ post); simpl in *; rewrite H; reflexivity.
    + simpl. rewrite IH. apply orb_true_r.
Qed.

Lemma contains_false_spec p t : contains p t = false <-> ~ substring p t.
Proof.
  rewrite <- contains_spec. destruct (contains p t); split; intros; easy.
Qed.

Lemma has_char_spec c t : has_char c t = true <-> In c t.
Proof.
  unfold has_char. rewrite existsb_exists. split.
  - intros (x & Hx & E). apply Ascii.eqb_eq in E. subst. exact Hx.
  - intros H. exists c. split; [exact H | apply Ascii.eqb_refl].
Qed.

Lemma replace_absent old new t : ~ In old t -> replace old new t = t.
Proof.
  unfold replace. induction t as [|a t IH]; simpl; intros H; [reflexivity|].
  destruct (Ascii.eqb a old) eqn:E.
  - apply Ascii.eqb_eq in E. subst. exfalso. apply H. left; reflexivity.
  - simpl. f_equal. apply IH. intros Hin. apply H. right; exact Hin.
Qed.

Lemma In_replace c old new t :
  In c (replace old new t) -> In c new \/ (In c t /\ c <> old).
Proof.
  unfold replace. induction t as [|a t IH]; simpl; [tauto|].
  rewrite in_app_iff. intros [H|H].
  - destruct (Ascii.eqb a old) eqn:E; [left; exact H|].
    destruct H as [<-|[]]. right. split; [left; reflexivity|].
    intros ->. rewrite Ascii.eqb_refl in E. discriminate.
  - destruct (IH H) as [H'|[H1 H2]]; [left; exact H'|right; tauto].
Qed.

Section Dropwhile.
Variable p : ascii -> bool.

Lemma In_dropwhile c t : In c (dropwhile p t) -> In c t.
Proof.
  induction t as [|a t IH]; simpl; [tauto|].
  destruct (p a); [right; auto | tauto].
Qed.

Lemma length_dropwhile t : (List.length (dropwhile p t) <= List.length t)%nat.
Proof.
  induction t as [|a t IH]; simpl; [lia|].
  destruct (p a); simpl; lia.
Qed.

Lemma dropwhile_head t :
  dropwhile p t = [] \/ exists c r, dropwhile p t = c :: r /\ p c = false.
Proof.
  induction t as [|a t IH]; simpl; [left; reflexivity|].
  destruct (p a) eqn:E; [exact IH | right; eauto].
Qed.

Lemma dropwhile_idem t : dropwhile p (dropwhile p t) = dropwhile p t.
Proof.
  destruct (dropwhile_head t) as [->|(c & r & -> & E)]; [reflexivity|].
  simpl. rewrite E. reflexivity.
Qed.

Lemma dropwhile_app_stop l c r :
  p c = false -> dropwhile p (l ++ c :: r) = dropwhile p l ++ c :: r.
Proof.
  intros E. induction l as [|a l IH]; simpl.
  - rewrite E. reflexivity.
  - destruct (p a); [exact IH | reflexivity].
Qed.

Lemma In_rstrip c t : In c (rstrip_with p t) -> In c t.
Proof.
  unfold rstrip_with. rewrite <- in_rev. intros H.
  apply In_dropwhile in H. rewrite <- in_rev in H. exact H.
Qed.

Lemma length_rstrip t : (List.length (rstrip_with p t) <= List.length t)%nat.
Proof.
  unfold rstrip_with. rewrite length_rev.
  etransitivity; [apply length_dropwhile | rewrite length_rev; lia].
Qed.

(** Stripping both ends a second time changes nothing. *)
Lemma strip_with_idem t :
  rstrip_with p (lstrip_with p (rstrip_with p (lstrip_with p t)))
  = rstrip_with p (lstrip_with p t).
Proof.
  unfold lstrip_with, rstrip_with.
  assert (H : dropwhile p (rev (dropwhile p (rev (dropwhile p t))))
              = rev (dropwhile p (rev (dropwhile p t)))).
  { destruct (dropwhile_head t) as [->|(c & r & -> & E)]; [reflexivity|].
    simpl rev. rewrite (dropwhile_app_stop _ _ _ E).
    rewrite rev_app_distr. simpl. rewrite E. reflexivity. }
  rewrite H, rev_involutive, dropwhile_idem. reflexivity.
Qed.
End Dropwhile.

Lemma In_strip c t : In c (strip t) -> In c t.
Proof.
  unfold strip, lstrip_with. intros H.
  apply In_rstrip in H. apply In_dropwhile in H. exact H.
Qed.

Lemma length_strip t : (List.length (strip t) <= List.length t)%nat.
Proof.
  unfold strip, lstrip_with.
  etransitivity; [apply length_rstrip | apply length_dropwhile].
Qed.

Lemma strip_idem t : strip (strip t) = strip t.
Proof. apply strip_with_idem. Qed.

Lemma reserved_free_spec t :
  reserved_free t = true <-> forall c, In c t -> ~ In c html_reserved.
Proof.
  unfold reserved_free. rewrite forallb_forall. split; intros H c Hc.
  - specialize (H c Hc). apply negb_true_iff in H.
    intros Hin. apply has_char_spec in Hin. congruence.
  - apply negb_true_iff. destruct (has_char c html_reserved) eqn:E; [|reflexivity].
    apply has_char_spec in E. exfalso. exact (H c Hc E).
Qed.

Lemma escape_reserved_free t : reserved_free t = true -> Html.escape t = t.
Proof.
  intros H. rewrite reserved_free_spec in H. unfold Html.escape.
  assert (A : forall c, In c html_reserved -> ~ In c t)
    by (intros c Hc Hin; exact (H c Hin Hc)).
  cbv zeta.
  rewrite (@replace_absent "&"%char _ t) by (apply A; simpl; tauto).
  rewrite (@replace_absent "<"%char _ t) by (apply A; simpl; tauto).
  rewrite (@replace_absent ">"%char _ t) by (apply A; simpl; tauto).
  rewrite (@replace_absent (ascii_of_nat 34) _ t) by (apply A; simpl; tauto).
  rewrite (@replace_absent "'"%char _ t) by (apply A; simpl; tauto).
  reflexivity.
Qed.

Lemma In_escape c t :
  In c (Html.escape t) -> In c t \/ In c (lit "&amp;lt;gt;quot;#x27;").
Proof.
  unfold Html.escape. intros H.
  repeat (apply In_replace in H as [H|[H _]];
          [right; revert H; vm_compute; tauto|]).
  left; exact H.
Qed.

Lemma Ok_inj {A} (a b : A) : Ok a = Ok b -> a = b.
Proof. congruence. Qed.

(** The sanitizer on a string, stage by stage. *)
Lemma sanitize_input_str t :
  security_utils.sanitize_input (PyStr t) =
  Ok (let u := Html.escape (replace Ascii.zero [] t) in
      strip (if len u >? 2048 then firstn 2048 u else u)).
Proof. reflexivity. Qed.

(** ** Facts about the regular expressions *)

Lemma match_here_literal text t :
  Re.match_here (literal text) t =
  if startswith text t then Some (List.length text) else None.
Proof.
  revert t; induction text as [|c text IH]; intros t; [reflexivity|].
  cbn [literal map Re.match_here Re.it_atom Re.it_min Re.it_max].
  fold (literal text).
  destruct t as [|b t]; [reflexivity|].
  cbn [Re.match_rep Re.atom_matches Nat.eqb Nat.pred startswith].
  destruct (Ascii.eqb c b); [|reflexivity].
  cbn [andb]. rewrite IH. destruct (startswith text t); reflexivity.
Qed.

Lemma search_from_literal text t :
  Re.search_from (literal text) t = contains text t.
Proof.
  induction t as [|b t IH].
  - cbn [Re.search_from contains]. rewrite match_here_literal.
    destruct (startswith text []); reflexivity.
  - cbn [Re.search_from contains]. rewrite match_here_literal, IH.
    destruct (startswith text (b :: t)); reflexivity.
Qed.

Lemma search_literal src text t :
  Re.compile src = Some (literal text) ->
  Re.search src t = Ok (contains text t).
Proof.
  intros H. unfold Re.search. rewrite H, search_from_literal. reflexivity.
Qed.

Lemma dangerous_sources :
  map fst dangerous = security_utils.malicious_patterns.
Proof. reflexivity. Qed.

Lemma dangerous_compile :
  Forall (fun d => Re.compile (fst d) = Some (literal (snd d))) dangerous.
Proof. repeat constructor. Qed.

Lemma scan_malicious_find ds u :
  Forall (fun d => Re.compile (fst d) = Some (literal (snd d))) ds ->
  security_utils.scan_malicious (map fst ds) u =
  Ok match find (fun d => contains (snd d) u) ds with
     | Some d => Some (false, security_utils.malicious_message (fst d))
     | None => None
     end.
Proof.
  induction 1 as [|d ds Hd _ IH]; [reflexivity|].
  cbn [map security_utils.scan_malicious find].
  rewrite (search_literal _ _ _ Hd). cbn [bind].
  destruct (contains (snd d) u); [reflexivity | exact IH].
Qed.

Lemma find_none_harmless u :
  find (fun d => contains (snd d) u) dangerous = None <-> harmless u.
Proof.
  unfold harmless. split.
  - intros H d Hd. apply contains_false_spec.
    exact (find_none _ _ H d Hd).
  - intros H. destruct (find _ dangerous) as [d|] eqn:E; [|reflexivity].
    apply find_some in E as [Hd E]. apply contains_spec in E.
    exfalso. exact (H d Hd E).
Qed.

Lemma find_first (u : str) before (d : str * str) after :
  (forall d', In d' before -> ~ substring (snd d') u) ->
  substring (snd d) u ->
  find (fun d => contains (snd d) u) (before ++ d :: after) = Some d.
Proof.
  intros Hb Hd. induction before as [|b before IH]; cbn [app find].
  - apply contains_spec in Hd. rewrite Hd. reflexivity.
  - assert (E : contains (snd b) u = false)
      by (apply contains_false_spec; apply Hb; left; reflexivity).
    rewrite E. apply IH. intros d' Hd'. apply Hb. right; exact Hd'.
Qed.

(** [validate_url] on a non-empty text of at most 2048 characters. *)
Lemma validate_url_stages {bc : BracketCheck} (url : str) :
  url <> [] -> len url <= 2048 ->
  security_utils.validate_url url =
  Ok match find (fun d => contains (snd d) (lower url)) dangerous with
     | Some d => (false, security_utils.malicious_message (fst d))
     | None => parse_verdict (urlparse url)
     end.
Proof.
  intros Hne Hlen. unfold security_utils.validate_url.
  destruct url as [|c url]; [congruence|]. cbn [truthy negb].
  replace (len (c :: url) >? 2048) with false
    by (symmetry; rewrite Z.gtb_ltb; apply Z.ltb_ge; exact Hlen).
  rewrite <- dangerous_sources, (scan_malicious_find _ _ dangerous_compile).
  cbn [bind].
  destruct (find _ dangerous) as [d|]; [reflexivity|].
  unfold parse_verdict.
  destruct (urlparse (c :: url)) as [parsed|e]; cbn [bind try_except];
    [|reflexivity].
  destruct (negb (truthy (scheme parsed)) || negb (truthy (netloc parsed)));
    cbn [bind try_except]; [reflexivity|].
  destruct (negb (existsb (str_eqb (scheme parsed)) [lit "http"; lit "https"]));
    reflexivity.
Qed.

Lemma str_eqb_spec a b : str_eqb a b = true <-> a = b.
Proof.
  unfold str_eqb. destruct (list_eq_dec ascii_dec a b); split; intros; easy.
Qed.

Lemma truthy_false t : truthy t = false <-> t = [].
Proof. destruct t; split; intros; easy. Qed.

Lemma lower_app a b : lower (a ++ b) = lower a ++ lower b.
Proof. apply map_app. Qed.

Lemma validate_url_too_long {bc : BracketCheck} url :
  len url > 2048 ->
  security_utils.validate_url url
  = Ok (false, lit "URL too long (max 2048 characters)").
Proof.
  intros H. unfold security_utils.validate_url.
  destruct url as [|c url]; [unfold len in H; simpl in H; lia|].
  cbn [truthy negb].
  replace (len (c :: url) >? 2048) with true
    by (symmetry; apply Z.gtb_lt; lia).
  reflexivity.
Qed.

(** A text of at most 2048 characters is never rejected for its length. *)
Lemma validate_url_short_reason {bc : BracketCheck} url is_valid message :
  len url <= 2048 ->
  security_utils.validate_url url = Ok (is_valid, message) ->
  message <> lit "URL too long (max 2048 characters)".
Proof.
  intros Hlen H. destruct url as [|c url].
  - vm_compute in H. injection H as <- <-. discriminate.
  - rewrite validate_url_stages in H by (congruence || exact Hlen).
    destruct (find _ dangerous) as [d|].
    + injection H as <- <-. discriminate.
    + unfold parse_verdict in H.
      destruct (urlparse (c :: url)) as [parsed|e].
      * destruct (negb (truthy (scheme parsed)) || negb (truthy (netloc parsed)));
          [injection H as <- <-; discriminate|].
        destruct (negb (existsb (str_eqb (scheme parsed)) [lit "http"; lit "https"]));
          injection H as <- <-; discriminate.
      * injection H as <- <-. discriminate.
Qed.

(** [validate_url] returns a pair on every text. *)
Lemma validate_url_returns {bc : BracketCheck} url :
  exists is_valid message,
    security_utils.validate_url url = Ok (is_valid, message).
Proof.
  destruct url as [|c url]; [do 2 eexists; reflexivity|].
  destruct (len (c :: url) >? 2048) eqn:E.
  - do 2 eexists. apply validate_url_too_long. apply Z.gtb_lt in E. lia.
  - rewrite validate_url_stages;
      [|discriminate | rewrite Z.gtb_ltb in E; apply Z.ltb_ge in E; exact E].
    destruct (find _ dangerous); [do 2 eexists; reflexivity|].
    destruct (parse_verdict (urlparse (c :: url))). do 2 eexists; reflexivity.
Qed.

(** What the validator accepts, [urlparse] has parsed into an http or https
    scheme and a non-empty authority; the message is then empty. *)
Lemma validate_url_accepted {bc : BracketCheck} url message :
  security_utils.validate_url url = Ok (true, message) ->
  message = []
  /\ exists parsed,
      urlparse url = Ok parsed
      /\ netloc parsed <> []
      /\ (scheme parsed = lit "http" \/ scheme parsed = lit "https").
Proof.
  intros H. destruct url as [|c url]; [discriminate H|].
  destruct (len (c :: url) >? 2048) eqn:E.
  - rewrite validate_url_too_long in H by (apply Z.gtb_lt in E; lia).
    discriminate H.
  - rewrite validate_url_stages in H;
      [|discriminate | rewrite Z.gtb_ltb in E; apply Z.ltb_ge in E; exact E].
    destruct (find _ dangerous); [discriminate H|].
    unfold parse_verdict in H.
    destruct (urlparse (c :: url)) as [parsed|e]; [|discriminate H].
    destruct (truthy (scheme parsed)) eqn:Es; [|discriminate H].
    destruct (truthy (netloc parsed)) eqn:En; [|discriminate H].
    cbn [negb orb existsb] in H.
    destruct (str_eqb (scheme parsed) (lit "http")) eqn:E1.
    + injection H as <-. split; [reflexivity|]. exists parsed.
      apply str_eqb_spec in E1. repeat split; auto.
      intros Hn. rewrite Hn in En. discriminate En.
    + destruct (str_eqb (scheme parsed) (lit "https")) eqn:E2;
        [|discriminate H].
      injection H as <-. split; [reflexivity|]. exists parsed.
      apply str_eqb_spec in E2. repeat split; auto.
      intros Hn. rewrite Hn in En. discriminate En.
Qed.

(** ** Facts about the extractor and the explanation generator *)

Import security_utils.

Lemma search_ip_ok domain :
  exists found, Re.search ip_pattern domain = Ok found.
Proof.
  unfold Re.search. destruct (Re.compile ip_pattern) eqn:E;
    [eauto | vm_compute in E; discriminate E].
Qed.

Lemma findall_digit_ok t :
  exists digits, Re.findall (lit "\d") t = Ok digits.
Proof.
  unfold Re.findall. destruct (Re.compile (lit "\d")) eqn:E;
    [eauto | vm_compute in E; discriminate E].
Qed.

Lemma extract_features_from_urls_acc {bc : BracketCheck} urls acc :
  fold_left
    (fun features_list url =>
       match extract_features url with
       | Ok features => features_list ++ [features]
       | Raise e => features_list ++ [repeat 0 7]
       end) urls acc
  = acc ++ map (fun url => match extract_features url with
                           | Ok features => features
                           | Raise _ => [0; 0; 0; 0; 0; 0; 0]
                           end) urls.
Proof.
  revert acc; induction urls as [|url urls IH]; intros acc; cbn [fold_left map].
  - rewrite app_nil_r. reflexivity.
  - rewrite IH. destruct (extract_features url);
      rewrite <- app_assoc; reflexivity.
Qed.

Lemma extract_features_shape {bc : BracketCheck} url :
  match urlparse url with
  | Ok parsed =>
      exists has_ip has_at num_digits has_https num_subdomains,
        extract_features url
        = Ok [len url; has_ip; has_at; num_digits; has_https;
              num_subdomains; brand_typo (netloc parsed)]
  | Raise e => extract_features url = Raise e
  end.
Proof.
  unfold extract_features.
  destruct (urlparse url) as [parsed|e]; cbn [bind]; [|reflexivity].
  destruct (search_ip_ok (netloc parsed)) as [found ->].
  destruct (findall_digit_ok url) as [digits ->]. cbn [bind].
  do 5 eexists. reflexivity.
Qed.

Lemma get_reasons_fired ul ip at_ nd https sub typo :
  app.get_reasons [ul; ip; at_; nd; https; sub; typo]
  = Ok match fired (reason_catalogue ul ip at_ nd https sub typo) with
       | [] => [app.reason_standard]
       | r :: rs => r :: rs
       end.
Proof.
  unfold app.get_reasons, reason_catalogue, fired, app.append_if.
  cbn [getitem nth_error bind filter map fst snd].
  destruct (ul >? 75), (ip =? 1), (at_ =? 1), (https =? 0), (typo =? 1),
    (sub >? 3), (nd >? 10); reflexivity.
Qed.


(** ** The matcher against the texts an expression matches *)

Section MatchRep.
Variable k : str -> option nat.
Variable Q : str -> Prop.
Variable a : Re.atom.

Hypothesis k_sound :
  forall t n, k t = Some n ->
    exists w rest, t = w ++ rest /\ List.length w = n /\ Q w.

Lemma match_rep_sound hi : forall lo t n,
  Re.match_rep k a lo hi t = Some n ->
  exists block w rest,
    t = block ++ w ++ rest /\ n = (List.length block + List.length w)%nat
    /\ (lo <= List.length block <= hi)%nat
    /\ Forall (fun c => Re.atom_matches a c = true) block /\ Q w.
Proof.
  assert (Hstop : forall lo hi' t n,
            (if Nat.eqb lo 0 then k t else None) = Some n ->
            exists block w rest,
              t = block ++ w ++ rest /\ n = (List.length block + List.length w)%nat
              /\ (lo <= List.length block <= hi')%nat
              /\ Forall (fun c => Re.atom_matches a c = true) block /\ Q w).
  { intros lo hi' t n H. destruct (Nat.eqb_spec lo 0); [|discriminate H].
    destruct (k_sound _ _ H) as (w & rest & -> & <- & Hq).
    exists [], w, rest. subst lo. cbn. repeat split; auto; lia. }
  induction hi as [|hi IH]; intros lo t n H.
  - cbn [Re.match_rep] in H. apply Hstop. exact H.
  - cbn [Re.match_rep] in H. destruct t as [|c t]; [apply Hstop; exact H|].
    destruct (Re.atom_matches a c) eqn:Ec; [|apply Hstop; exact H].
    destruct (Re.match_rep k a (Nat.pred lo) hi t) as [m|] eqn:Er;
      [|apply Hstop; exact H].
    injection H as <-.
    destruct (IH _ _ _ Er) as (block & w & rest & -> & -> & Hb & Hf & Hq).
    exists (c :: block), w, rest. cbn [List.length app].
    repeat split; auto; try lia.
Qed.

Lemma match_rep_complete block : forall lo hi u,
  Forall (fun c => Re.atom_matches a c = true) block ->
  (lo <= List.length block <= hi)%nat ->
  k u <> None ->
  Re.match_rep k a lo hi (block ++ u) <> None.
Proof.
  induction block as [|c block IH]; intros lo hi u Hf Hb Hk.
  - cbn [List.length] in Hb. assert (lo = 0%nat) by lia. subst lo.
    cbn [app]. destruct hi as [|hi]; [exact Hk|].
    cbn [Re.match_rep Nat.eqb]. destruct u as [|c u]; [exact Hk|].
    destruct (Re.atom_matches a c); [|exact Hk].
    destruct (Re.match_rep k a (Nat.pred 0) hi u); [discriminate | exact Hk].
  - cbn [List.length] in Hb. destruct hi as [|hi]; [lia|].
    inversion Hf as [|? ? Hc Hf']; subst.
    cbn [app Re.match_rep]. rewrite Hc.
    specialize (IH (Nat.pred lo) hi u Hf' ltac:(lia) Hk).
    destruct (Re.match_rep k a (Nat.pred lo) hi (block ++ u));
      [discriminate | contradiction].
Qed.
End MatchRep.

Lemma match_here_sound r : forall t n,
  Re.match_here r t = Some n ->
  exists w rest, t = w ++ rest /\ List.length w = n /\ matches r w.
Proof.
  induction r as [|it r IH]; intros t n H.
  - injection H as <-. exists [], t. repeat split. constructor.
  - cbn [Re.match_here] in H.
    destruct (match_rep_sound (Re.match_here r) (matches r) (Re.it_atom it)
                IH _ _ _ _ H)
      as (block & w & rest & -> & -> & Hb & Hf & Hq).
    exists (block ++ w), rest. rewrite <- app_assoc, length_app.
    repeat split. constructor; assumption.
Qed.

Lemma match_here_complete r w :
  matches r w -> forall rest, Re.match_here r (w ++ rest) <> None.
Proof.
  induction 1 as [|it r block w Hb Hf _ IH]; intros rest; [discriminate|].
  cbn [Re.match_here]. rewrite <- app_assoc.
  apply match_rep_complete; auto.
Qed.

(** [re.search] finds exactly the occurrences. *)
Lemma search_from_occurs r t : Re.search_from r t = true <-> occurs r t.
Proof.
  unfold occurs. split.
  - induction t as [|c t IH]; cbn [Re.search_from].
    + destruct (Re.match_here r []) as [n|] eqn:E; [|discriminate].
      intros _. destruct (match_here_sound _ _ _ E) as (w & rest & Ht & _ & Hm).
      exists [], w, rest. split; [exact Ht | exact Hm].
    + destruct (Re.match_here r (c :: t)) as [n|] eqn:E.
      * intros _.
        destruct (match_here_sound _ _ _ E) as (w & rest & Ht & _ & Hm).
        exists [], w, rest. split; [exact Ht | exact Hm].
      * intros H. destruct (IH H) as (pre & w & post & -> & Hm).
        exists (c :: pre), w, post. split; [reflexivity | exact Hm].
  - intros (pre & w & post & -> & Hm). induction pre as [|c pre IH].
    + pose proof (match_here_complete _ _ Hm post) as H. cbn [app].
      destruct (w ++ post) as [|c u]; cbn [Re.search_from];
        destruct (Re.match_here r _); try reflexivity; contradiction.
    + cbn [app Re.search_from]. rewrite IH.
      destruct (Re.match_here r _); reflexivity.
Qed.

Lemma occurs_extend r t pre post : occurs r t -> occurs r (pre ++ t ++ post).
Proof.
  intros (p & w & q & -> & Hm). exists (pre ++ p), w, (q ++ post).
  split; [|exact Hm]. rewrite <- !app_assoc. reflexivity.
Qed.

Lemma ip_pattern_compiled : Re.compile ip_pattern = Some ip_regex.
Proof. reflexivity. Qed.

Lemma search_ip_occurs t :
  Re.search ip_pattern t = Ok (Re.search_from ip_regex t).
Proof. unfold Re.search. rewrite ip_pattern_compiled. reflexivity. Qed.

Lemma matches_dot_block (block : str) :
  (1 <= List.length block <= 1)%nat ->
  Forall (fun c => Re.atom_matches (Re.Chr ".") c = true) block ->
  block = lit ".".
Proof.
  intros Hl Hf. destruct block as [|c [|d block]]; cbn [List.length] in Hl; try lia.
  inversion Hf as [|? ? Hc _]; subst. cbn [Re.atom_matches] in Hc.
  apply Ascii.eqb_eq in Hc. subst. reflexivity.
Qed.

Lemma matches_ip_regex w : matches ip_regex w <-> dotted_quad w.
Proof.
  unfold ip_regex, dotted_quad, digit_group. split.
  - intros H.
    repeat match goal with
           | H : matches (_ :: _) _ |- _ =>
               inversion H; clear H; subst
           | H : matches [] _ |- _ => inversion H; clear H; subst
           end.
    cbn [Re.it_min Re.it_max Re.it_atom] in *.
    repeat match goal with
           | Hl : (1 <= List.length ?b <= 1)%nat,
             Hf : Forall (fun c => Re.atom_matches (Re.Chr ".") c = true) ?b
             |- _ => rewrite (matches_dot_block b Hl Hf) in *; clear Hl Hf
           end.
    cbn [Re.atom_matches] in *. rewrite app_nil_r.
    match goal with
    | |- exists _ _ _ _, ?a ++ _ ++ ?b ++ _ ++ ?c ++ _ ++ ?d = _ /\ _ =>
        exists a, b, c, d
    end.
    split; [reflexivity | tauto].
  - intros (d1 & d2 & d3 & d4 & -> & [L1 F1] & [L2 F2] & [L3 F3] & [L4 F4]).
    assert (Hdot : forall r w, matches r w ->
              matches (Re.Item (Re.Chr ".") 1 1 :: r) (lit "." ++ w)).
    { intros r w Hm. apply matches_item; cbn; auto; repeat constructor. }
    apply matches_item; [exact L1 | exact F1|]. apply Hdot.
    apply matches_item; [exact L2 | exact F2|]. apply Hdot.
    apply matches_item; [exact L3 | exact F3|]. apply Hdot.
    rewrite <- (app_nil_r d4).
    apply matches_item; [exact L4 | exact F4 | constructor].
Qed.

Lemma findall_digits_filter t :
  Re.findall_from [Re.Item Re.Digit 1 1] 0 t
  = map (fun c => [c]) (filter isdigit t).
Proof.
  induction t as [|c t IH]; [reflexivity|].
  cbn [Re.findall_from Re.match_here Re.it_atom Re.it_min Re.it_max
       Re.match_rep Nat.eqb Nat.pred Re.atom_matches filter].
  destruct (isdigit c); cbn [map firstn]; rewrite IH; reflexivity.
Qed.

Lemma findall_digit_count t :
  Re.findall (lit "\d") t = Ok (map (fun c => [c]) (filter isdigit t)).
Proof.
  unfold Re.findall.
  change (Re.compile (lit "\d")) with (Some [Re.Item Re.Digit 1 1]).
  cbv beta iota. rewrite findall_digits_filter. reflexivity.
Qed.

(** ** How [urlsplit] takes a URL apart *)

Lemma match_two_slashes {A} (f : str -> A) (g : A) (u : str) :
  match u with
  | "/"%char :: "/"%char :: rest => f rest
  | _ => g
  end = if startswith (lit "//") u then f (skipn 2 u) else g.
Proof.
  destruct u as [|c1 [|c2 rest]]; [reflexivity| |].
  - destruct c1 as [[] [] [] [] [] [] [] []]; reflexivity.
  - destruct c1 as [[] [] [] [] [] [] [] []]; try reflexivity.
    destruct c2 as [[] [] [] [] [] [] [] []]; reflexivity.
Qed.

Lemma authority_of_startswith u :
  authority_of u
  = if startswith (lit "//") u then fst (splitnetloc (skipn 2 u)) else [].
Proof. unfold authority_of. apply (match_two_slashes (fun r => fst (splitnetloc r))). Qed.

Lemma urlparse_parts {bc : BracketCheck} url parsed :
  urlparse url = Ok parsed ->
  scheme parsed = fst (split_scheme (cleaned url))
  /\ netloc parsed = authority_of (snd (split_scheme (cleaned url))).
Proof.
  unfold urlparse, urlsplit. fold (cleaned url).
  unfold split_scheme.
  destruct (partition ":"%char (cleaned url)) as [[before found] after].
  set (cond := found && truthy before && _ && _).
  assert (Hgen : forall sch u3,
    (splitresult <-
      (split <-
       match u3 with
       | "/"%char :: "/"%char :: rest =>
           let '(netloc, url0) := splitnetloc rest in
           if has_char "[" netloc && negb (has_char "]" netloc)
              || has_char "]" netloc && negb (has_char "[" netloc)
           then Raise (ValueError (lit "Invalid IPv6 URL"))
           else
             _ <- (if has_char "[" netloc && has_char "]" netloc
                   then check_bracketed_netloc netloc else Ok tt) ;;
             Ok (netloc, url0)
       | _ => Ok ([], u3)
       end ;;
       (let '(netloc, url0) := split in
        let '(url1, fragment) :=
          match partition "#" url0 with
          | (h, true, r) => (h, r)
          | (h, false, _) => (url0, [])
          end in
        let '(url2, query) :=
          match partition "?" url1 with
          | (h, true, r) => (h, r)
          | (h, false, _) => (url1, [])
          end in Ok (sch, netloc, url2, query, fragment))) ;;
      (let '(scheme, netloc, url0, query, fragment) := splitresult in
       let '(url1, params) :=
         if existsb (str_eqb scheme) uses_params && has_char ";" url0
         then splitparams url0 else (url0, []) in
       Ok {| scheme := scheme; netloc := netloc; path := url1;
             params := params; query := query; fragment := fragment |}))
    = Ok parsed ->
    scheme parsed = sch /\ netloc parsed = authority_of u3).
  { intros sch u3. rewrite authority_of_startswith.
    rewrite (match_two_slashes
               (fun rest =>
                  let '(netloc, url0) := splitnetloc rest in
                  if has_char "[" netloc && negb (has_char "]" netloc)
                     || has_char "]" netloc && negb (has_char "[" netloc)
                  then Raise (ValueError (lit "Invalid IPv6 URL"))
                  else
                    _ <- (if has_char "[" netloc && has_char "]" netloc
                          then check_bracketed_netloc netloc else Ok tt) ;;
                    Ok (netloc, url0))).
    destruct (startswith (lit "//") u3).
    - destruct (splitnetloc (skipn 2 u3)) as [net r]. cbn [fst].
      destruct (has_char "[" net && negb (has_char "]" net)
                || has_char "]" net && negb (has_char "[" net));
        [discriminate|].
      destruct (if has_char "[" net && has_char "]" net
                then check_bracketed_netloc net else Ok tt);
        [|discriminate].
      cbn [bind].
      repeat first [progress cbn [bind] | match goal with
             | |- context [partition ?c ?u] =>
                 destruct (partition c u) as [[? []] ?]
             | |- context [splitparams ?u] => destruct (splitparams u)
             | |- context [if ?b then _ else _] => destruct b
             end];
        intros H; injection H as <-; split; reflexivity.
    - cbn [bind].
      repeat first [progress cbn [bind] | match goal with
             | |- context [partition ?c ?u] =>
                 destruct (partition c u) as [[? []] ?]
             | |- context [splitparams ?u] => destruct (splitparams u)
             | |- context [if ?b then _ else _] => destruct b
             end];
        intros H; injection H as <-; split; reflexivity. }
  destruct cond; cbn [fst snd]; apply Hgen.
Qed.

Lemma partition_spec c t :
  t = fst (fst (partition c t))
      ++ (if snd (fst (partition c t)) then c :: snd (partition c t) else []).
Proof.
  induction t as [|a t IH]; [reflexivity|]. cbn [partition].
  destruct (Ascii.eqb a c) eqn:E.
  - apply Ascii.eqb_eq in E. subst. reflexivity.
  - destruct (partition c t) as [[h found] r]. cbn [fst snd] in *.
    cbn [app]. f_equal. exact IH.
Qed.

Lemma splitnetloc_spec t :
  t = fst (splitnetloc t) ++ snd (splitnetloc t).
Proof.
  induction t as [|a t IH]; [reflexivity|]. cbn [splitnetloc].
  destruct (is_netloc_delim a); [reflexivity|].
  destruct (splitnetloc t) as [n r]. cbn [fst snd app] in *. f_equal. exact IH.
Qed.

Lemma dropwhile_suffix p t : exists pre, t = pre ++ dropwhile p t.
Proof.
  induction t as [|a t [pre IH]]; [exists []; reflexivity|]. cbn [dropwhile].
  destruct (p a); [|exists []; reflexivity].
  exists (a :: pre). cbn [app]. f_equal. exact IH.
Qed.

Lemma split_scheme_suffix u : exists pre, u = pre ++ snd (split_scheme u).
Proof.
  unfold split_scheme. pose proof (partition_spec ":"%char u) as H.
  destruct (partition ":"%char u) as [[before found] after]. cbn [fst snd] in H.
  destruct (found && truthy before && _ && _) eqn:E; cbn [snd];
    [|exists []; reflexivity].
  destruct found; [|discriminate E].
  exists (before ++ [":"%char]). rewrite <- app_assoc. exact H.
Qed.

Lemma authority_of_spec u :
  authority_of u = []
  \/ exists rest, u = lit "//" ++ authority_of u ++ rest.
Proof.
  rewrite authority_of_startswith.
  destruct (startswith (lit "//") u) eqn:E; [|left; reflexivity]. right.
  apply startswith_spec in E as [post ->]. cbn [skipn app lit list_ascii_of_string].
  exists (snd (splitnetloc post)). cbn [app]. do 2 f_equal.
  apply splitnetloc_spec.
Qed.

(** Every authority is a piece of the cleaned URL. *)
Lemma authority_in_cleaned {bc : BracketCheck} url parsed :
  urlparse url = Ok parsed -> substring (netloc parsed) (cleaned url).
Proof.
  intros H. apply urlparse_parts in H as [_ ->].
  destruct (split_scheme_suffix (cleaned url)) as [pre Hpre].
  destruct (authority_of_spec (snd (split_scheme (cleaned url))))
    as [->|[rest Hrest]].
  - exists [], (cleaned url). reflexivity.
  - exists (pre ++ lit "//"), rest. rewrite <- app_assoc.
    rewrite Hpre at 1. f_equal. exact Hrest.
Qed.

Lemma replace_nil_absent (b : ascii) t : ~ In b t -> replace b [] t = t.
Proof. apply replace_absent. Qed.

(** Without a tab or a line break the cleaned URL is the end of the URL. *)
Lemma cleaned_suffix url :
  (forall c, In c unsafe_url_bytes_to_remove -> ~ In c url) ->
  exists pre, url = pre ++ cleaned url.
Proof.
  intros Hsafe. unfold cleaned, lstrip_with.
  destruct (dropwhile_suffix c0_control_or_space url) as [pre Hpre].
  assert (Hs : forall c, In c unsafe_url_bytes_to_remove ->
                 ~ In c (dropwhile c0_control_or_space url)).
  { intros c Hc Hin. apply (Hsafe c Hc). apply In_dropwhile in Hin. exact Hin. }
  cbn [unsafe_url_bytes_to_remove fold_left].
  rewrite !replace_absent; [exists pre; exact Hpre | | |];
    repeat rewrite replace_absent; try (apply Hs; cbn; tauto).
Qed.

Lemma authority_in_url {bc : BracketCheck} url parsed :
  (forall c, In c unsafe_url_bytes_to_remove -> ~ In c url) ->
  urlparse url = Ok parsed -> substring (netloc parsed) url.
Proof.
  intros Hsafe H. destruct (authority_in_cleaned url parsed H) as (p & q & Hc).
  destruct (cleaned_suffix url Hsafe) as [pre Hpre].
  exists (pre ++ p), q. rewrite <- app_assoc, <- Hc. exact Hpre.
Qed.

(** Counting the characters that satisfy a test. *)
Lemma count_if_app p a b : count_if p (a ++ b) = count_if p a + count_if p b.
Proof. unfold count_if. rewrite filter_app, length_app. lia. Qed.

Lemma count_if_nonneg p t : 0 <= count_if p t.
Proof. unfold count_if. lia. Qed.

Lemma count_if_le_len p t : count_if p t <= len t.
Proof.
  unfold count_if, len. apply inj_le. induction t as [|a t IH]; cbn; [lia|].
  destruct (p a); cbn; lia.
Qed.

Lemma count_if_substring p s t : substring s t -> count_if p s <= count_if p t.
Proof.
  intros (pre & post & ->). rewrite !count_if_app.
  pose proof (count_if_nonneg p pre). pose proof (count_if_nonneg p post). lia.
Qed.

Lemma count_if_dropwhile p q t : count_if p (dropwhile q t) <= count_if p t.
Proof.
  destruct (dropwhile_suffix q t) as [pre H]. rewrite H at 2.
  rewrite count_if_app. pose proof (count_if_nonneg p pre). lia.
Qed.

Lemma count_if_remove p b t : count_if p (replace b [] t) <= count_if p t.
Proof.
  unfold count_if, replace. apply inj_le.
  induction t as [|a t IH]; cbn [flat_map filter]; [lia|].
  destruct (Ascii.eqb a b); cbn [app filter]; destruct (p a); cbn; lia.
Qed.

Lemma count_if_cleaned p url : count_if p (cleaned url) <= count_if p url.
Proof.
  unfold cleaned, lstrip_with. cbn [unsafe_url_bytes_to_remove fold_left].
  etransitivity; [apply count_if_remove|].
  etransitivity; [apply count_if_remove|].
  etransitivity; [apply count_if_remove|]. apply count_if_dropwhile.
Qed.

(** The authority holds no more characters of any kind than the URL. *)
Lemma count_if_authority {bc : BracketCheck} p url parsed :
  urlparse url = Ok parsed -> count_if p (netloc parsed) <= count_if p url.
Proof.
  intros H. etransitivity; [|apply count_if_cleaned].
  apply count_if_substring. exact (authority_in_cleaned url parsed H).
Qed.

Lemma count_as_count_if c t : count c t = count_if (Ascii.eqb c) t.
Proof. reflexivity. Qed.

(** ** The extractor, feature by feature *)

Lemma extract_features_values {bc : BracketCheck} url parsed :
  urlparse url = Ok parsed ->
  extract_features url
  = Ok [ len url;
         if Re.search_from ip_regex (netloc parsed) then 1 else 0;
         if has_char "@"%char url then 1 else 0;
         count_if isdigit url;
         if str_eqb (scheme parsed) (lit "https") then 1 else 0;
         if truthy (netloc parsed) then count "."%char (netloc parsed) - 1
         else 0;
         brand_typo (netloc parsed) ].
Proof.
  intros H. unfold extract_features. rewrite H. cbn [bind].
  rewrite search_ip_occurs. cbn [bind].
  rewrite findall_digit_count. cbn [bind].
  rewrite length_map. reflexivity.
Qed.

Lemma search_ip_dotted_quad t :
  Re.search_from ip_regex t = true <-> has_dotted_quad t.
Proof.
  rewrite search_from_occurs. unfold occurs, has_dotted_quad.
  split; intros (pre & w & post & Ht & Hw); exists pre, w, post;
    (split; [exact Ht | apply matches_ip_regex; exact Hw]).
Qed.

Lemma digit_group_count d : digit_group d -> 1 <= count_if isdigit d.
Proof.
  intros [Hl Hf]. unfold count_if.
  destruct d as [|c d]; cbn [List.length] in Hl; [lia|].
  inversion Hf as [|? ? Hc _]; subst. cbn [Re.atom_matches] in Hc.
  cbn [filter]. rewrite Hc. cbn. lia.
Qed.

Lemma dotted_quad_counts w :
  dotted_quad w ->
  4 <= count_if isdigit w /\ 3 <= count_if (Ascii.eqb ".") w /\ 7 <= len w.
Proof.
  intros (d1 & d2 & d3 & d4 & -> & G1 & G2 & G3 & G4).
  pose proof (digit_group_count _ G1). pose proof (digit_group_count _ G2).
  pose proof (digit_group_count _ G3). pose proof (digit_group_count _ G4).
  assert (Hdot : forall p, 0 <= count_if p (lit "."))
    by (intros; apply count_if_nonneg).
  assert (Hd1 : count_if (Ascii.eqb ".") (lit ".") = 1) by reflexivity.
  pose proof (count_if_nonneg (Ascii.eqb ".") d1).
  pose proof (count_if_nonneg (Ascii.eqb ".") d2).
  pose proof (count_if_nonneg (Ascii.eqb ".") d3).
  pose proof (count_if_nonneg (Ascii.eqb ".") d4).
  pose proof (Hdot isdigit).
  split; [|split].
  - rewrite !count_if_app. lia.
  - rewrite !count_if_app, !Hd1. lia.
  - pose proof (count_if_le_len isdigit
                  (d1 ++ lit "." ++ d2 ++ lit "." ++ d3 ++ lit "." ++ d4)) as Hl.
    assert (Hc : 4 + 3 <= len (d1 ++ lit "." ++ d2 ++ lit "." ++ d3 ++ lit "." ++ d4)).
    { unfold len. rewrite !length_app. cbn [List.length lit list_ascii_of_string].
      destruct G1 as [L1 _], G2 as [L2 _], G3 as [L3 _], G4 as [L4 _]. lia. }
    lia.
Qed.

(** ** The tags of the pattern detector *)

Lemma fired_app a b : fired (a ++ b) = fired a ++ fired b.
Proof. unfold fired. rewrite filter_app, map_app. reflexivity. Qed.

Lemma fired_In_iff cat x : In x (fired cat) <-> In (true, x) cat.
Proof.
  unfold fired. rewrite in_map_iff. split.
  - intros ([b t] & <- & H). apply filter_In in H as [H Hb].
    cbn [fst snd] in *. subst b. exact H.
  - intros H. exists (true, x). split; [reflexivity|].
    apply filter_In. split; [exact H | reflexivity].
Qed.

Lemma tag_if_fired cond tag suspicious :
  tag_if cond tag suspicious = suspicious ++ fired [(cond, tag)].
Proof.
  unfold tag_if, fired. destruct cond; cbn; [reflexivity|].
  rewrite app_nil_r. reflexivity.
Qed.

Lemma fold_tag_if_fired {A} (cond : A -> bool) (tag : A -> str) l :
  forall suspicious,
    fold_left (fun suspicious x => tag_if (cond x) (tag x) suspicious) l
      suspicious
    = suspicious ++ fired (map (fun x => (cond x, tag x)) l).
Proof.
  induction l as [|x l IH]; intros suspicious; cbn [fold_left map].
  - unfold fired. cbn. rewrite app_nil_r. reflexivity.
  - rewrite IH, tag_if_fired, <- app_assoc, <- fired_app. reflexivity.
Qed.

Lemma detect_suspicious_patterns_fired {bc : BracketCheck} url :
  detect_suspicious_patterns url
  = (parsed <- urlparse url ;; Ok (fired (tag_catalogue url (netloc parsed)))).
Proof.
  unfold detect_suspicious_patterns.
  change (lit "\d{1,3}\.\d{1,3}\.\d{1,3}\.\d{1,3}") with ip_pattern.
  rewrite search_ip_occurs. cbn [bind].
  destruct (urlparse url) as [parsed|e]; [|reflexivity]. cbn [bind].
  rewrite !fold_tag_if_fired, !tag_if_fired, <- !app_assoc. cbn [app].
  rewrite <- !fired_app. reflexivity.
Qed.




(** ** The /predict handler without a model *)

(** The fallback branch of the scorer on a vector of seven. *)
Lemma score_features_fallback ul ip at_ nd hs sub typo :
  app.score_features None [ul; ip; at_; nd; hs; sub; typo]
  = Ok (if Z.min (weighted_sum ul ip at_ hs typo sub) 100 >=? 70
        then lit "Phishing" else lit "Safe",
        0.8%float,
        Z.min (weighted_sum ul ip at_ hs typo sub) 100).
Proof.
  unfold app.score_features, app.calculate_mock_score.
  cbn [getitem nth_error bind].
  replace (Z.min _ 100) with (Z.min (weighted_sum ul ip at_ hs typo sub) 100);
    [reflexivity|].
  unfold weighted_sum, iverson.
  destruct (ul >? 75), (ip =? 1), (at_ =? 1), (hs =? 0), (typo =? 1),
    (sub >? 3); reflexivity.
Qed.

(** With no model loaded, a parsed, non-empty URL is answered 200 with
    its features. *)
Lemma predict_fallback_ok {bc : BracketCheck} url parsed :
  url <> [] -> urlparse url = Ok parsed ->
  exists features body,
    extract_features url = Ok features
    /\ List.length features = 7%nat
    /\ app.predict None url = app.Json200 body
    /\ app.url body = url
    /\ map snd (app.features body) = features.
Proof.
  intros Hne Hp. destruct url as [|c url]; [congruence|].
  pose proof (extract_features_shape (c :: url)) as Hshape. rewrite Hp in Hshape.
  destruct Hshape as (ip & at_ & nd & hs & sub & Hf).
  unfold app.predict. cbn [truthy negb]. rewrite Hf. cbn [bind].
  rewrite score_features_fallback. cbn [bind].
  rewrite get_reasons_fired. cbn [bind].
  do 2 eexists. repeat split; reflexivity.
Qed.
Example compile_ip :
  Re.compile (lit "\d{1,3}\.\d{1,3}") =
  Some [Re.Item Re.Digit 1 3; Re.Item (Re.Chr ".") 1 1; Re.Item Re.Digit 1 3].
Proof. reflexivity. Qed.

Example findall_digits :
  Re.findall (lit "\d") (lit "a1b22") = Ok [lit "1"; lit "2"; lit "2"].
Proof. reflexivity. Qed.

Example search_ip :
  Re.search (lit "\d{1,3}\.\d{1,3}\.\d{1,3}\.\d{1,3}") (lit "x192.168.1.1y") = Ok true
  /\ Re.search (lit "\d{1,3}\.\d{1,3}\.\d{1,3}\.\d{1,3}") (lit "192.168.1") = Ok false
  /\ Re.search (lit "eval\(") (lit "xeval(1)") = Ok true.
Proof. repeat split; reflexivity. Qed.

Example urlparse_ex1 :
  UrlLib.urlparse (bc := UrlLib.no_bracket_validation) (lit "HTTP://User@Example.com:80/a/b;p?q=1#frag") =
  Ok {| UrlLib.scheme := lit "http"; UrlLib.netloc := lit "User@Example.com:80";
        UrlLib.path := lit "/a/b"; UrlLib.params := lit "p"; UrlLib.query := lit "q=1";
        UrlLib.fragment := lit "frag" |}.
Proof. reflexivity. Qed.

Example urlparse_ex2 :
  UrlLib.urlparse (bc := UrlLib.no_bracket_validation) (lit "http://[") =
  Raise (ValueError (lit "Invalid IPv6 URL")).
Proof. reflexivity. Qed.

Example urlparse_ex3 :
  UrlLib.urlparse (bc := UrlLib.no_bracket_validation) (lit "www.google.com/x") =
  Ok {| UrlLib.scheme := lit ""; UrlLib.netloc := lit "";
        UrlLib.path := lit "www.google.com/x"; UrlLib.params := lit ""; UrlLib.query := lit "";
        UrlLib.fragment := lit "" |}.
Proof. reflexivity. Qed.

Example extract_ex1 :
  feature_extraction.extract_features (bc := UrlLib.no_bracket_validation)
    (lit "http://192.168.1.1/paypal") = Ok [25; 1; 0; 8; 0; 2; 0].
Proof. vm_compute. reflexivity. Qed.

Example validate_ex1 :
  security_utils.validate_url (bc := UrlLib.no_bracket_validation)
    (lit "http://a.com/JavaScript:x") =
  Ok (false, lit "URL contains potentially malicious content: javascript:").
Proof. vm_compute. reflexivity. Qed.

Example predict_ex1 :
  app.predict (bc := UrlLib.no_bracket_validation) None (lit "https://www.google.com") =
  app.Json200 {| app.url := lit "https://www.google.com"; app.prediction := lit "Safe";
     app.confidence := app.Round 0.8 3; app.phishing_score := 0;
     app.features := combine app.feature_names [22; 0; 0; 0; 1; 1; 0];
     app.reasons := [app.reason_standard]; app.model_used := lit "Mock" |}.
Proof. vm_compute. reflexivity. Qed.

Example predict_ex2 :
  app.predict (bc := UrlLib.no_bracket_validation) None (lit "http://[") =
  app.Json500 (lit "Prediction failed: Invalid IPv6 URL").
Proof. vm_compute. reflexivity. Qed.

Example score_ex :
  app.score_features (Some {| Sklearn.predict := fun _ => [1]; Sklearn.predict_proba := fun _ => [[0.001%float; 0.999%float]] |}) [] =
  Ok (lit "Phishing", 0.999%float, 99).
Proof. vm_compute. reflexivity. Qed.

(** The URLs the source tries its extractor on. *)
Example extract_source_tests :
  feature_extraction.extract_features (bc := UrlLib.no_bracket_validation)
    (lit "https://google.com") = Ok [18; 0; 0; 0; 1; 0; 0]
  /\ feature_extraction.extract_features (bc := UrlLib.no_bracket_validation)
       (lit "http://g00gle-login.com/verify") = Ok [30; 0; 0; 2; 0; 0; 1]
  /\ feature_extraction.extract_features (bc := UrlLib.no_bracket_validation)
       (lit "https://secure-paypa1.com/login") = Ok [31; 0; 0; 1; 1; 0; 1]
  /\ feature_extraction.extract_features (bc := UrlLib.no_bracket_validation)
       (lit "localhost") = Ok [9; 0; 0; 0; 0; 0; 0]
  /\ feature_extraction.extract_features (bc := UrlLib.no_bracket_validation)
       (lit "http://localhost/") = Ok [17; 0; 0; 0; 0; -1; 0].
Proof. repeat split; vm_compute; reflexivity. Qed.

Example typo_patterns_google :
  feature_extraction.typo_patterns (lit "google")
  = map lit ["g00gle"; "goog1e"; "google"; "googl3"; "google-login";
             "google-verify"; "google-secure"; "secure-google"]%string.
Proof. reflexivity. Qed.

Example sanitize_examples :
  security_utils.sanitize_input (PyStr (lit "  <a href='x'>  "))
  = Ok (lit "&lt;a href=&#x27;x&#x27;&gt;")
  /\ security_utils.sanitize_input (PyStr []) = Ok []
  /\ security_utils.sanitize_input PyNone = Ok (lit "None")
  /\ security_utils.sanitize_input (PyInt (-42)) = Ok (lit "-42").
Proof. repeat split; vm_compute; reflexivity. Qed.

Example to_str_int_limit :
  to_str (PyInt int_str_limit)
  = Raise (ValueError
             (lit "Exceeds the limit (4300 digits) for integer string conversion; use sys.set_int_max_str_digits() to increase the limit")).
Proof. vm_compute. reflexivity. Qed.

(** The concrete URLs used further down carry no bracketed host, so what
    is computed for them holds for every bracket check. *)
Example inputs_without_bracketed_host (bc : UrlLib.BracketCheck) :
  UrlLib.urlparse (lit "http://[") = Raise (ValueError (lit "Invalid IPv6 URL"))
  /\ security_utils.validate_url (lit "http://[")
     = Ok (false, lit "URL parsing error: Invalid IPv6 URL")
  /\ security_utils.validate_url (repeat "a"%char 2049)
     = Ok (false, lit "URL too long (max 2048 characters)")
  /\ security_utils.validate_api_request
       (security_utils.Dict [(lit "url", PyStr overlong_url)])
     = Ok (true, [], [(lit "url", firstn 2048 overlong_url)])
  /\ feature_extraction.extract_features (lit "https://www.google.com")
     = Ok [22; 0; 0; 0; 1; 1; 0]
  /\ feature_extraction.extract_features (lit "https://example.com/a")
     = Ok [21; 0; 0; 0; 1; 0; 0].
Proof. repeat split; vm_compute; reflexivity. Qed.

Example split_join_examples :
  split "."%char (lit "mail.google.com") = map lit ["mail"; "google"; "com"]%string
  /\ split "."%char (lit "a..b.") = map lit ["a"; ""; "b"; ""]%string
  /\ split "."%char [] = [[]]
  /\ join (lit ".") (map lit ["google"; "com"]%string) = lit "google.com"
  /\ endswith (lit ".tk") (lit "http://x.tk") = true
  /\ endswith (lit ".tk") (lit "tk") = false.
Proof. repeat split; reflexivity. Qed.

Example is_safe_domain_examples :
  security_utils.is_safe_domain (lit "mail.google.com") = true
  /\ security_utils.is_safe_domain (lit "GitHub.com") = true
  /\ security_utils.is_safe_domain (lit "notgoogle.com") = false
  /\ security_utils.is_safe_domain (lit "google.com.evil.org") = false
  /\ security_utils.is_safe_domain [] = false.
Proof. repeat split; vm_compute; reflexivity. Qed.

Example detect_examples (bc : UrlLib.BracketCheck) :
  security_utils.detect_suspicious_patterns (lit "http://192.168.1.1/login.tk")
  = Ok (map lit ["IP address instead of domain"; "Suspicious TLD: .tk"]%string)
  /\ security_utils.detect_suspicious_patterns (lit "https://www.microsoft.com")
     = Ok [lit "URL shortener: t.co"]
  /\ security_utils.detect_suspicious_patterns (lit "http://[")
     = Raise (ValueError (lit "Invalid IPv6 URL")).
Proof. repeat split; vm_compute; reflexivity. Qed.

Example preprocess_examples (bc : UrlLib.BracketCheck) :
  data_preprocessing.preprocess_url (lit "  Example.COM/Path ") = Ok (lit "http://example.com/Path")
  /\ data_preprocessing.preprocess_url (lit "HTTPS://Example.com") = Ok (lit "http://https://Example.com")
  /\ data_preprocessing.preprocess_url (lit "https://a.com/p?q=1#f") = Ok (lit "https://a.com/pq=1f")
  /\ data_preprocessing.preprocess_url [] = Ok []
  /\ data_preprocessing.preprocess_url (lit "[") = Raise (ValueError (lit "Invalid IPv6 URL"))
  /\ data_preprocessing.preprocess_url (lit "//[") = Ok (lit "http:////[").
Proof. repeat split; vm_compute; reflexivity. Qed.

(** ** The heuristic scorer *)

Lemma weighted_sum_bounds a b c d e f :
  0 <= weighted_sum a b c d e f <= 135.
Proof.
  unfold weighted_sum, iverson.
  destruct (a >? 75), (b =? 1), (c =? 1), (d =? 0), (e =? 1), (f >? 3); lia.
Qed.

(** C1.  On every vector of seven integers the heuristic scorer returns the
    weighted rule sum clamped to [0,100]; the label is Phishing exactly
    when the score is at least 70 and Safe otherwise; the confidence is
    the constant 0.8.  The vector of http://192.168.1.1/paypal scores 45
    and is labelled Safe. *)
Theorem heuristic_scorer_weighted_sum :
  (forall url_length has_ip has_at num_digits has_https num_subdomains
          has_brand_typo : Z,
      let features := [url_length; has_ip; has_at; num_digits; has_https;
                       num_subdomains; has_brand_typo] in
      let score := clamp 0 100
                     (weighted_sum url_length has_ip has_at has_https
                        has_brand_typo num_subdomains) in
      app.calculate_mock_score features = Ok score
      /\ 0 <= score <= 100
      /\ exists status,
          app.score_features None features = Ok (status, 0.8%float, score)
          /\ (status = lit "Phishing" <-> score >= 70)
          /\ (status = lit "Safe" <-> score < 70))
  /\ (forall bc : BracketCheck,
        feature_extraction.extract_features (lit "http://192.168.1.1/paypal")
        = Ok [25; 1; 0; 8; 0; 2; 0]
        /\ app.calculate_mock_score [25; 1; 0; 8; 0; 2; 0] = Ok 45
        /\ app.score_features None [25; 1; 0; 8; 0; 2; 0]
           = Ok (lit "Safe", 0.8%float, 45)).
Proof.
  split.
  - intros ul ip at_ nd https sub typo features score.
    assert (Hs : app.calculate_mock_score features = Ok score).
    { subst features score. unfold app.calculate_mock_score; cbn [getitem nth_error bind].
      f_equal. unfold clamp, weighted_sum, iverson.
      destruct (ul >? 75), (ip =? 1), (at_ =? 1), (https =? 0), (typo =? 1),
        (sub >? 3); reflexivity. }
    assert (Hb : 0 <= score <= 100).
    { subst score. unfold clamp.
      pose proof (weighted_sum_bounds ul ip at_ https typo sub). lia. }
    split; [exact Hs|]. split; [exact Hb|].
    unfold app.score_features. rewrite Hs. cbn [bind].
    destruct (score >=? 70) eqn:E.
    + exists (lit "Phishing"). split; [reflexivity|].
      apply Z.geb_le in E. split; split; intros; try reflexivity; try lia.
      discriminate.
    + exists (lit "Safe"). split; [reflexivity|].
      assert (score < 70) by (rewrite Z.geb_leb in E; apply Z.leb_gt in E; lia).
      split; split; intros; try reflexivity; try lia. discriminate.
  - intros bc. repeat split; vm_compute; reflexivity.
Qed.

(** ** The brand-typo feature *)


Lemma scan_patterns_spec patterns brand d :
  (scan_patterns patterns brand d 0 = 1 <->
   exists pattern, In pattern patterns /\ substring pattern d
                   /\ ~ substring brand d)
  /\ (scan_patterns patterns brand d 0 = 0
      \/ scan_patterns patterns brand d 0 = 1).
Proof.
  induction patterns as [|p ps [IH1 IH2]]; simpl.
  - split; [|auto]. split; [discriminate | intros (? & [] & _)].
  - destruct (contains p d && negb (contains brand d)) eqn:E.
    + split; [|auto]. split; [intros _|reflexivity].
      apply andb_true_iff in E as [E1 E2]. apply negb_true_iff in E2.
      exists p. rewrite <- contains_spec, <- contains_false_spec.
      split; [left; reflexivity | auto].
    + split; [|exact IH2]. rewrite IH1. split.
      * intros (q & Hq & H). exists q; split; [right; exact Hq | exact H].
      * intros (q & [<-|Hq] & H1 & H2); [|exists q; auto].
        apply contains_spec in H1. apply contains_false_spec in H2.
        rewrite H1, H2 in E. discriminate.
Qed.

Lemma scan_brands_cons b bs d h :
  scan_brands (b :: bs) d h =
  if negb (scan_patterns (typo_patterns b) b d h =? 0)
  then scan_patterns (typo_patterns b) b d h
  else scan_brands bs d (scan_patterns (typo_patterns b) b d h).
Proof. reflexivity. Qed.

Lemma scan_brands_spec bs d :
  (scan_brands bs d 0 = 1 <-> exists brand, In brand bs /\ typo_match brand d)
  /\ (scan_brands bs d 0 = 0 \/ scan_brands bs d 0 = 1).
Proof.
  induction bs as [|b bs [IH1 IH2]].
  - simpl. split; [|auto]. split; [discriminate | intros (? & [] & _)].
  - rewrite scan_brands_cons.
    destruct (scan_patterns_spec (typo_patterns b) b d) as [P1 [P2|P2]];
      rewrite P2 in *; simpl negb; cbv iota.
    + split; [|exact IH2]. rewrite IH1. split.
      * intros (q & Hq & H). exists q; split; [right; exact Hq | exact H].
      * intros (q & [<-|Hq] & H); [|exists q; auto].
        apply P1 in H. discriminate.
    + split; [|auto]. split; [intros _|reflexivity].
      exists b. split; [left; reflexivity|]. apply P1. reflexivity.
Qed.






(** ** The explanation generator *)

(** C9, as the text of the claim has it: the reasons of
    https://www.google.com are not the bare sentence; the text the code
    emits starts with a check-mark pictograph. *)
Lemma reasons_google_differ_from_bare_text :
  feature_extraction.extract_features (bc := no_bracket_validation)
    (lit "https://www.google.com") = Ok [22; 0; 0; 0; 1; 1; 0]
  /\ app.get_reasons [22; 0; 0; 0; 1; 1; 0]
     <> Ok [lit "URL appears to follow standard patterns"].
Proof.
  split; [vm_compute; reflexivity|].
  vm_compute. intros H. discriminate H.
Qed.

(** C9, amended.  The generator appends, in the fixed order of the seven
    predicates, the text of each predicate that holds; when none holds it
    emits exactly one reason, the text of [reason_standard], which is the
    sentence of the specification preceded by a check mark and a space;
    this is the reasons list of https://www.google.com. *)
Theorem get_reasons_catalogue_order :
  (forall url_length has_ip has_at num_digits has_https num_subdomains
          has_brand_typo : Z,
      app.get_reasons [url_length; has_ip; has_at; num_digits; has_https;
                       num_subdomains; has_brand_typo]
      = Ok match fired (reason_catalogue url_length has_ip has_at num_digits
                          has_https num_subdomains has_brand_typo) with
           | [] => [app.reason_standard]
           | r :: rs => r :: rs
           end)
  /\ app.reason_standard
     = lit "✅ " ++ lit "URL appears to follow standard patterns"
  /\ (forall bc : BracketCheck,
        bind (feature_extraction.extract_features
                (lit "https://www.google.com")) app.get_reasons
        = Ok [lit "✅ URL appears to follow standard patterns"]).
Proof.
  split; [|split].
  - apply get_reasons_fired.
  - reflexivity.
  - intros bc. vm_compute. reflexivity.
Qed.

(** ** The sanitizer *)


Lemma In_firstn_str (c : ascii) n (t : str) : In c (firstn n t) -> In c t.
Proof.
  intros H. rewrite <- (firstn_skipn n t). apply in_or_app. left; exact H.
Qed.

Lemma In_truncate c (u : str) :
  In c (if len u >? 2048 then firstn 2048 u else u) -> In c u.
Proof. destruct (len u >? 2048); [apply In_firstn_str | tauto]. Qed.

Lemma length_truncate (u : str) :
  len (if len u >? 2048 then firstn 2048 u else u) <= 2048.
Proof.
  unfold len. destruct (Z.of_nat (List.length u) >? 2048) eqn:E.
  - rewrite length_firstn. lia.
  - rewrite Z.gtb_ltb in E. apply Z.ltb_ge in E. exact E.
Qed.

Lemma sanitize_str_returns t :
  exists sanitized, sanitize_input (PyStr t) = Ok sanitized.
Proof. rewrite sanitize_input_str. eexists. reflexivity. Qed.

Lemma sanitize_str_length t sanitized :
  sanitize_input (PyStr t) = Ok sanitized -> len sanitized <= 2048.
Proof.
  rewrite sanitize_input_str. cbv zeta. intros E. apply Ok_inj in E.
  subst sanitized.
  set (u := Html.escape (replace Ascii.zero [] t)).
  pose proof (length_truncate u) as H.
  pose proof (length_strip (if len u >? 2048 then firstn 2048 u else u)) as H'.
  unfold len in *. lia.
Qed.

Lemma sanitize_str_no_null t sanitized :
  sanitize_input (PyStr t) = Ok sanitized -> ~ In Ascii.zero sanitized.
Proof.
  rewrite sanitize_input_str. cbv zeta. intros E H. apply Ok_inj in E.
  subst sanitized.
  apply In_strip, In_truncate, In_escape in H as [H|H].
  - apply In_replace in H as [[]|[_ H]]. apply H; reflexivity.
  - revert H. vm_compute. intuition discriminate.
Qed.

(** What is no string goes through [str()] alone. *)
Lemma sanitize_input_other v :
  isinstance_str v = false -> sanitize_input v = to_str v.
Proof. destruct v; [discriminate | reflexivity ..]. Qed.

(** C6, as stated: an integer of 2049 digits is no string, and the
    sanitizer returns its 2049 characters. *)
Lemma sanitize_input_long_integer :
  exists sanitized,
    sanitize_input (PyInt (10 ^ 2048)) = Ok sanitized
    /\ len sanitized = 2049
    /\ ~ len sanitized <= 2048.
Proof.
  eexists. split; [vm_compute; reflexivity|].
  assert (H : forall t : str, len t = 2049 -> len t = 2049 /\ ~ len t <= 2048)
    by (intros t ->; split; [reflexivity | lia]).
  apply H. vm_compute. reflexivity.
Qed.

(** C6, amended.  For every string input the sanitizer returns a text of
    at most 2048 characters that holds no null character.  An input that
    is not a string is answered as [str()] answers it: the text [str()]
    returns comes back as it is, whatever its length and its characters,
    and when [str()] raises, as it does for an integer of more than 4300
    digits, one whose magnitude is at least [int_str_limit], the sanitizer
    raises the same exception. *)
Theorem sanitize_input_invariant_on_strings :
  (forall t,
      exists sanitized,
        sanitize_input (PyStr t) = Ok sanitized
        /\ len sanitized <= 2048
        /\ ~ In Ascii.zero sanitized)
  /\ (forall v, isinstance_str v = false -> sanitize_input v = to_str v)
  /\ (forall t, sanitize_input (PyObject (Ok t)) = Ok t)
  /\ (forall e, sanitize_input (PyObject (Raise e)) = Raise e)
  /\ (forall n,
        (Z.abs n < int_str_limit ->
         exists digits, sanitize_input (PyInt n) = Ok digits)
        /\ (int_str_limit <= Z.abs n ->
            exists msg, sanitize_input (PyInt n) = Raise (ValueError msg))).
Proof.
  split.
  { intros t. destruct (sanitize_str_returns t) as [sanitized H].
    exists sanitized. split; [exact H|].
    split; [exact (sanitize_str_length t _ H) | exact (sanitize_str_no_null t _ H)]. }
  split; [exact sanitize_input_other|].
  split; [reflexivity|]. split; [reflexivity|].
  intros n. cbn [sanitize_input to_str].
  destruct (Z.leb_spec int_str_limit (Z.abs n)) as [H|H]; split; intros H'.
  - exfalso. apply (Z.lt_irrefl (Z.abs n)).
    exact (Z.lt_le_trans _ _ _ H' H).
  - eexists. reflexivity.
  - eexists. reflexivity.
  - exfalso. apply (Z.lt_irrefl (Z.abs n)).
    exact (Z.lt_le_trans _ _ _ H H').
Qed.

Lemma sanitize_input_invariant_on_strings_witness :
  (exists digits, sanitize_input (PyInt (int_str_limit - 1)) = Ok digits)
  /\ (exists msg, sanitize_input (PyInt int_str_limit) = Raise (ValueError msg)).
Proof.
  split.
  - apply (proj1 (proj2 (proj2 (proj2 (proj2
             sanitize_input_invariant_on_strings))) (int_str_limit - 1))).
    vm_compute. reflexivity.
  - apply (proj2 (proj2 (proj2 (proj2 (proj2
             sanitize_input_invariant_on_strings))) int_str_limit)).
    vm_compute. discriminate.
Defined.

(** C5, as stated: sanitizing the ampersand twice escapes it twice. *)
Lemma sanitize_input_twice_ampersand :
  sanitize_input (PyStr (lit "&")) = Ok (lit "&amp;")
  /\ sanitize_input (PyStr (lit "&amp;")) = Ok (lit "&amp;amp;")
  /\ sanitize_input (PyStr (lit "&amp;")) <> sanitize_input (PyStr (lit "&")).
Proof.
  repeat split; try (vm_compute; reflexivity).
  vm_compute. discriminate.
Qed.

(** C5, amended.  The sanitizer is idempotent on every string that holds
    none of the five characters [html.escape] rewrites: it returns a text,
    and returns that text again when applied to it. *)
Theorem sanitize_input_idempotent_without_reserved (t : str) :
  reserved_free t = true ->
  exists sanitized,
    sanitize_input (PyStr t) = Ok sanitized
    /\ sanitize_input (PyStr sanitized) = Ok sanitized.
Proof.
  intros Hfree.
  destruct (sanitize_str_returns t) as [sanitized Hs0].
  exists sanitized. split; [exact Hs0|].
  pose proof (sanitize_str_length t _ Hs0) as Hlen.
  pose proof (sanitize_str_no_null t _ Hs0) as Hnull.
  assert (Hu : Html.escape (replace Ascii.zero [] t) = replace Ascii.zero [] t).
  { apply escape_reserved_free. apply reserved_free_spec. intros c Hc.
    apply In_replace in Hc as [[]|[Hc _]].
    rewrite reserved_free_spec in Hfree. exact (Hfree c Hc). }
  assert (Hs : sanitized =
               strip (if len (replace Ascii.zero [] t) >? 2048
                      then firstn 2048 (replace Ascii.zero [] t)
                      else replace Ascii.zero [] t)).
  { rewrite sanitize_input_str in Hs0. cbv zeta in Hs0. rewrite Hu in Hs0.
    apply Ok_inj in Hs0. symmetry. exact Hs0. }
  assert (Hfree' : reserved_free sanitized = true).
  { apply reserved_free_spec. intros c Hc. rewrite Hs in Hc.
    apply In_strip, In_truncate in Hc. apply In_replace in Hc as [[]|[Hc _]].
    rewrite reserved_free_spec in Hfree. exact (Hfree c Hc). }
  rewrite (sanitize_input_str sanitized). cbv zeta. f_equal.
  rewrite (replace_absent _ [] _ Hnull), (escape_reserved_free _ Hfree').
  replace (len sanitized >? 2048) with false
    by (symmetry; rewrite Z.gtb_ltb; apply Z.ltb_ge; exact Hlen).
  rewrite Hs at 1. rewrite strip_idem. symmetry; exact Hs.
Qed.

Lemma sanitize_input_idempotent_without_reserved_witness :
  exists sanitized,
    sanitize_input (PyStr (lit "  http://example.com/a?b=1 ")) = Ok sanitized
    /\ sanitize_input (PyStr sanitized) = Ok sanitized.
Proof.
  apply (sanitize_input_idempotent_without_reserved
           (lit "  http://example.com/a?b=1 ")).
  reflexivity.
Defined.

(** ** The validator *)

(** C3, as stated: the reason given for an over-long URL is not the text
    "URL too long"; the code's reason goes on with the limit. *)
Lemma validate_url_long_reason :
  validate_url (bc := no_bracket_validation) (repeat "a"%char 2049)
  = Ok (false, lit "URL too long (max 2048 characters)")
  /\ validate_url (bc := no_bracket_validation) (repeat "a"%char 2049)
     <> Ok (false, lit "URL too long").
Proof.
  assert (H : validate_url (bc := no_bracket_validation) (repeat "a"%char 2049)
              = Ok (false, lit "URL too long (max 2048 characters)"))
    by (vm_compute; reflexivity).
  split; [exact H | rewrite H; discriminate].
Qed.

(** C3, amended.  The validator applies its rules in order, the first
    failure deciding: the empty text is rejected with "URL cannot be
    empty"; then a text of more than 2048 characters with "URL too long
    (max 2048 characters)"; then a text in whose lower-cased form a
    dangerous pattern occurs, with a reason that names the first such
    pattern of the list; then, when [urlparse] returns, a missing scheme or
    authority with "Invalid URL format"; then a scheme other than http and
    https with "Only HTTP and HTTPS URLs are supported"; what passes all
    is accepted.  Every text that holds javascript: in any mix of cases is
    rejected, whatever its scheme and authority. *)
Theorem validate_url_rule_order {bc : BracketCheck} (url : str) :
  (url = [] -> validate_url url = Ok (false, lit "URL cannot be empty"))
  /\ (len url > 2048 ->
      validate_url url = Ok (false, lit "URL too long (max 2048 characters)"))
  /\ (url <> [] -> len url <= 2048 ->
      forall before src text after,
        dangerous = before ++ (src, text) :: after ->
        (forall d, In d before -> ~ substring (snd d) (lower url)) ->
        substring text (lower url) ->
        validate_url url
        = Ok (false, lit "URL contains potentially malicious content: " ++ src))
  /\ (url <> [] -> len url <= 2048 -> harmless (lower url) ->
      forall parsed, urlparse url = Ok parsed ->
        (scheme parsed = [] \/ netloc parsed = [] ->
         validate_url url = Ok (false, lit "Invalid URL format"))
        /\ (scheme parsed <> [] -> netloc parsed <> [] ->
            scheme parsed <> lit "http" -> scheme parsed <> lit "https" ->
            validate_url url
            = Ok (false, lit "Only HTTP and HTTPS URLs are supported"))
        /\ (netloc parsed <> [] ->
            scheme parsed = lit "http" \/ scheme parsed = lit "https" ->
            validate_url url = Ok (true, [])))
  /\ (forall pre mid post,
        url = pre ++ mid ++ post -> lower mid = lit "javascript:" ->
        validate_url url
        = Ok (false,
              if len url >? 2048 then lit "URL too long (max 2048 characters)"
              else lit "URL contains potentially malicious content: javascript:")).
Proof.
  split; [|split; [|split; [|split]]].
  - intros ->. reflexivity.
  - apply validate_url_too_long.
  - intros Hne Hlen before src text after Hd Hb Ht.
    rewrite validate_url_stages by assumption.
    rewrite Hd, (find_first _ _ (src, text) _ Hb Ht). reflexivity.
  - intros Hne Hlen Hh parsed Hp.
    rewrite validate_url_stages by assumption.
    apply find_none_harmless in Hh. rewrite Hh, Hp. unfold parse_verdict.
    split; [|split].
    + intros [E|E]; rewrite E; cbn [truthy negb orb]; [reflexivity|].
      rewrite orb_true_r. reflexivity.
    + intros Hs Hn H1 H2.
      destruct (scheme parsed) as [|a s] eqn:Es; [congruence|].
      destruct (netloc parsed) as [|b n]; [congruence|].
      cbn [truthy negb orb existsb].
      destruct (str_eqb (a :: s) (lit "http")) eqn:E1;
        [apply str_eqb_spec in E1; congruence|].
      destruct (str_eqb (a :: s) (lit "https")) eqn:E2;
        [apply str_eqb_spec in E2; congruence|].
      reflexivity.
    + intros Hn Hs.
      destruct (netloc parsed) as [|b n]; [congruence|].
      destruct Hs as [-> | ->]; reflexivity.
  - intros pre mid post -> Hmid.
    destruct (len (pre ++ mid ++ post) >? 2048) eqn:E.
    + apply validate_url_too_long. apply Z.gtb_lt in E. lia.
    + assert (Hne : pre ++ mid ++ post <> []).
      { destruct mid; [discriminate Hmid|]. destruct pre; discriminate. }
      rewrite validate_url_stages;
        [|exact Hne | rewrite Z.gtb_ltb in E; apply Z.ltb_ge in E; exact E].
      change dangerous with ([] ++ (lit "javascript:", lit "javascript:")
                                :: tl dangerous).
      rewrite (find_first _ [] _ _); [reflexivity | intros ? [] |].
      exists (lower pre), (lower post).
      rewrite !lower_app, Hmid. reflexivity.
Qed.

Lemma validate_url_rule_order_witness :
  validate_url (bc := no_bracket_validation) [] = Ok (false, lit "URL cannot be empty")
  /\ validate_url (bc := no_bracket_validation) (lit "http://x.org/?q=<Script>")
     = Ok (false, lit "URL contains potentially malicious content: <script")
  /\ validate_url (bc := no_bracket_validation) (lit "www.example.com")
     = Ok (false, lit "Invalid URL format")
  /\ validate_url (bc := no_bracket_validation) (lit "ftp://example.com/")
     = Ok (false, lit "Only HTTP and HTTPS URLs are supported")
  /\ validate_url (bc := no_bracket_validation) (lit "https://example.com/a")
     = Ok (true, [])
  /\ validate_url (bc := no_bracket_validation) (lit "http://example.com/JavaScript:x")
     = Ok (false, lit "URL contains potentially malicious content: javascript:").
Proof.
  split; [|split; [|split; [|split; [|split]]]].
  - apply (proj1 (validate_url_rule_order (bc := no_bracket_validation) [])).
    reflexivity.
  - apply (proj1 (proj2 (proj2
             (validate_url_rule_order (bc := no_bracket_validation)
                (lit "http://x.org/?q=<Script>"))))
             ltac:(discriminate) ltac:(vm_compute; discriminate)
             (firstn 4 dangerous) (lit "<script") (lit "<script")
             (skipn 5 dangerous) eq_refl).
    + intros d Hd. apply contains_false_spec.
      vm_compute in Hd. decompose [or] Hd; subst; try reflexivity; contradiction.
    + apply contains_spec. reflexivity.
  - apply (proj1 (proj2 (proj2 (proj2
             (validate_url_rule_order (bc := no_bracket_validation)
                (lit "www.example.com")))))
             ltac:(discriminate) ltac:(vm_compute; discriminate)
             ltac:(apply find_none_harmless; reflexivity) _ eq_refl).
    left; reflexivity.
  - apply (proj1 (proj2 (proj2 (proj2
             (validate_url_rule_order (bc := no_bracket_validation)
                (lit "ftp://example.com/")))))
             ltac:(discriminate) ltac:(vm_compute; discriminate)
             ltac:(apply find_none_harmless; reflexivity) _ eq_refl);
      vm_compute; discriminate.
  - apply (proj1 (proj2 (proj2 (proj2
             (validate_url_rule_order (bc := no_bracket_validation)
                (lit "https://example.com/a")))))
             ltac:(discriminate) ltac:(vm_compute; discriminate)
             ltac:(apply find_none_harmless; reflexivity) _ eq_refl).
    + vm_compute; discriminate.
    + right; reflexivity.
  - apply (proj2 (proj2 (proj2 (proj2
             (validate_url_rule_order (bc := no_bracket_validation)
                (lit "http://example.com/JavaScript:x")))))
             (lit "http://example.com/") (lit "JavaScript:") (lit "x")
             eq_refl eq_refl).
Defined.

(** C10.  On every text the validator returns a pair and raises nothing;
    when [urlparse] raises, the text is rejected, and, if no earlier rule
    rejected it, with a message made of "URL parsing error: " and the text
    of the exception, a message none of the five rules gives. *)
Theorem validate_url_total {bc : BracketCheck} (url : str) :
  (exists is_valid message, validate_url url = Ok (is_valid, message))
  /\ (forall e, urlparse url = Raise e ->
        (exists message, validate_url url = Ok (false, message))
        /\ (url <> [] -> len url <= 2048 -> harmless (lower url) ->
            validate_url url
            = Ok (false, lit "URL parsing error: " ++ exn_str e)))
  /\ (forall text pattern,
        let message := lit "URL parsing error: " ++ text in
        message <> lit "URL cannot be empty"
        /\ message <> lit "URL too long (max 2048 characters)"
        /\ message <> malicious_message pattern
        /\ message <> lit "Invalid URL format"
        /\ message <> lit "Only HTTP and HTTPS URLs are supported").
Proof.
  assert (Hstages : forall u, u <> [] -> len u <= 2048 ->
            validate_url u =
            Ok match find (fun d => contains (snd d) (lower u)) dangerous with
               | Some d => (false, malicious_message (fst d))
               | None => parse_verdict (urlparse u)
               end) by (intros; apply validate_url_stages; assumption).
  split; [|split].
  - apply validate_url_returns.
  - intros e He. split.
    + destruct url as [|c url]; [eexists; reflexivity|].
      destruct (len (c :: url) >? 2048) eqn:E.
      * eexists. apply validate_url_too_long. apply Z.gtb_lt in E. lia.
      * rewrite Hstages;
          [|discriminate | rewrite Z.gtb_ltb in E; apply Z.ltb_ge in E; exact E].
        destruct (find _ dangerous); [eexists; reflexivity|].
        rewrite He. eexists; reflexivity.
    + intros Hne Hlen Hh. rewrite Hstages by assumption.
      apply find_none_harmless in Hh. rewrite Hh, He. reflexivity.
  - intros text pattern message. subst message.
    repeat split; discriminate.
Qed.

Lemma validate_url_total_witness :
  validate_url (bc := no_bracket_validation) (lit "http://[")
  = Ok (false, lit "URL parsing error: Invalid IPv6 URL").
Proof.
  apply (proj2 (proj1 (proj2
           (validate_url_total (bc := no_bracket_validation) (lit "http://[")))
           (ValueError (lit "Invalid IPv6 URL")) eq_refl)).
  - discriminate.
  - vm_compute; discriminate.
  - apply find_none_harmless; reflexivity.
Defined.

(** ** Sanitization followed by validation *)

(** C7, as stated: a URL of 2053 characters is cut to its first 2048 by
    the sanitizer and then accepted by the validator. *)
Lemma pipeline_accepts_overlong_url :
  len overlong_url = 2053
  /\ validate_api_request (bc := no_bracket_validation)
       (Dict [(lit "url", PyStr overlong_url)])
     = Ok (true, [], [(lit "url", firstn 2048 overlong_url)]).
Proof. split; vm_compute; reflexivity. Qed.

(** C7, amended.  The validator rejects every text of more than 2048
    characters with "URL too long (max 2048 characters)".  In the pipeline
    a string URL reaches the validator sanitized, hence with at most 2048
    characters: the verdict of the pipeline is the validator's verdict on
    the sanitized text and its reason is never the length.  A url value
    that is not a string reaches the validator as the text [str()]
    returns for it, and is rejected for its length when that text exceeds
    2048 characters; when [str()] raises, the pipeline raises the same
    exception.  Feature extraction is not behind the validator: the
    extractor returns a vector of seven for every URL of more than 2048
    characters that [urlparse] accepts, although the validator rejects it,
    and the /predict handler with no model loaded answers it with 200 and
    these features. *)
Theorem pipeline_validates_sanitized_url {bc : BracketCheck} :
  (forall url, len url > 2048 ->
     validate_url url = Ok (false, lit "URL too long (max 2048 characters)"))
  /\ (forall items t,
        dict_get (lit "url") items = Some (PyStr t) ->
        exists sanitized is_valid message,
          sanitize_input (PyStr t) = Ok sanitized
          /\ len sanitized <= 2048
          /\ validate_url sanitized = Ok (is_valid, message)
          /\ message <> lit "URL too long (max 2048 characters)"
          /\ validate_api_request (Dict items)
             = Ok (if is_valid
                   then (true, [], [(lit "url", sanitized)])
                   else (false, message, [])))
  /\ (forall items v,
        dict_get (lit "url") items = Some v ->
        isinstance_str v = false ->
        match to_str v with
        | Ok text =>
            len text > 2048 ->
            validate_api_request (Dict items)
            = Ok (false, lit "URL too long (max 2048 characters)", [])
        | Raise e => validate_api_request (Dict items) = Raise e
        end)
  /\ (forall url parsed,
        len url > 2048 -> urlparse url = Ok parsed ->
        validate_url url = Ok (false, lit "URL too long (max 2048 characters)")
        /\ exists features body,
            extract_features url = Ok features
            /\ List.length features = 7%nat
            /\ app.predict None url = app.Json200 body
            /\ app.url body = url
            /\ map snd (app.features body) = features).
Proof.
  split; [|split; [|split]].
  - intros url. apply validate_url_too_long.
  - intros items t Hget.
    destruct (sanitize_str_returns t) as [sanitized Hs].
    pose proof (sanitize_str_length t _ Hs) as Hlen.
    destruct (validate_url_returns sanitized) as (is_valid & message & Hv).
    exists sanitized, is_valid, message.
    split; [exact Hs|]. split; [exact Hlen|]. split; [exact Hv|]. split.
    + exact (validate_url_short_reason _ _ _ Hlen Hv).
    + unfold validate_api_request. rewrite Hget, Hs. cbn [bind].
      rewrite Hv. cbn [bind].
      destruct is_valid; [|reflexivity].
      destruct (validate_url_accepted _ _ Hv) as [-> _]. reflexivity.
  - intros items v Hget Hv. unfold validate_api_request. rewrite Hget.
    rewrite (sanitize_input_other v Hv).
    destruct (to_str v) as [text|e]; cbn [bind]; [|reflexivity].
    intros Hlen. rewrite (validate_url_too_long _ Hlen). reflexivity.
  - intros url parsed Hlen Hp. split; [exact (validate_url_too_long _ Hlen)|].
    apply (predict_fallback_ok url parsed); [|exact Hp].
    intros ->. cbn in Hlen. discriminate Hlen.
Qed.

Lemma pipeline_validates_sanitized_url_witness :
  validate_url (bc := no_bracket_validation) overlong_url
  = Ok (false, lit "URL too long (max 2048 characters)")
  /\ (exists sanitized,
        sanitize_input (PyStr overlong_url) = Ok sanitized
        /\ len sanitized <= 2048)
  /\ validate_api_request (bc := no_bracket_validation)
       (Dict [(lit "url", PyInt (10 ^ 2048))])
     = Ok (false, lit "URL too long (max 2048 characters)", [])
  /\ (exists msg,
        validate_api_request (bc := no_bracket_validation)
          (Dict [(lit "url", PyInt int_str_limit)])
        = Raise (ValueError msg))
  /\ (exists features body,
        extract_features (bc := no_bracket_validation) overlong_url
        = Ok features
        /\ app.predict (bc := no_bracket_validation) None overlong_url
           = app.Json200 body).
Proof.
  split; [|split; [|split; [|split]]].
  - apply (proj1 (pipeline_validates_sanitized_url (bc := no_bracket_validation))).
    vm_compute. reflexivity.
  - destruct (proj1 (proj2 (pipeline_validates_sanitized_url
                              (bc := no_bracket_validation)))
                [(lit "url", PyStr overlong_url)] overlong_url eq_refl)
      as (sanitized & _ & _ & Hs & Hlen & _).
    exists sanitized. split; [exact Hs | exact Hlen].
  - pose proof (proj1 (proj2 (proj2 (pipeline_validates_sanitized_url
                                       (bc := no_bracket_validation))))
                  [(lit "url", PyInt (10 ^ 2048))] (PyInt (10 ^ 2048))
                  eq_refl eq_refl) as H.
    assert (E : exists text, to_str (PyInt (10 ^ 2048)) = Ok text
                             /\ len text > 2048).
    { eexists. split; [vm_compute; reflexivity|]. vm_compute. reflexivity. }
    destruct E as (text & E & Hlen). rewrite E in H. exact (H Hlen).
  - pose proof (proj1 (proj2 (proj2 (pipeline_validates_sanitized_url
                                       (bc := no_bracket_validation))))
                  [(lit "url", PyInt int_str_limit)] (PyInt int_str_limit)
                  eq_refl eq_refl) as H.
    assert (E : exists msg, to_str (PyInt int_str_limit) = Raise (ValueError msg)).
    { eexists. vm_compute. reflexivity. }
    destruct E as (msg & E). rewrite E in H. exists msg. exact H.
  - destruct (proj2 (proj2 (proj2 (pipeline_validates_sanitized_url
                                     (bc := no_bracket_validation))))
                overlong_url) with (parsed := {| scheme := lit "http";
                  netloc := lit "a.com";
                  path := lit "/" ++ repeat "a"%char 2040;
                  params := []; query := []; fragment := [] |})
      as (_ & features & body & Hf & _ & Hb & _);
      [vm_compute; reflexivity | vm_compute; reflexivity |].
    exists features, body. split; [exact Hf | exact Hb].
Defined.

(** ** The feature extractor *)

(** C2, as stated: on a URL whose authority holds an unmatched bracket
    [urlparse] raises, and the extractor raises with it; no zero vector is
    returned. *)
Lemma extract_features_raises_on_unmatched_bracket :
  extract_features (bc := no_bracket_validation) (lit "http://[")
  = Raise (ValueError (lit "Invalid IPv6 URL"))
  /\ extract_features (bc := no_bracket_validation) (lit "http://[")
     <> Ok [0; 0; 0; 0; 0; 0; 0].
Proof. split; [vm_compute; reflexivity | vm_compute; discriminate]. Qed.

(** C2, amended.  The extractor is a function of the URL.  On every URL
    the validator accepts, and more generally whenever [urlparse] returns,
    it returns a vector of seven components and raises nothing; when
    [urlparse] raises, it raises the same exception and substitutes
    nothing.  Its callers recover: the training loop puts the zero-filled
    vector in place of the row, so each of its rows has seven components,
    and the /predict handler answers with a 500 error. *)
Theorem extract_features_total_on_parsed_urls {bc : BracketCheck} :
  (forall url message,
      validate_url url = Ok (true, message) ->
      exists url_length has_ip has_at num_digits has_https num_subdomains
             has_brand_typo,
        extract_features url
        = Ok [url_length; has_ip; has_at; num_digits; has_https;
              num_subdomains; has_brand_typo])
  /\ (forall url,
      match urlparse url with
      | Ok parsed =>
          exists has_ip has_at num_digits has_https num_subdomains,
            extract_features url
            = Ok [len url; has_ip; has_at; num_digits; has_https;
                  num_subdomains; brand_typo (netloc parsed)]
      | Raise e =>
          extract_features url = Raise e
          /\ forall model,
              app.predict model url
              = if negb (truthy url) then app.Json400 (lit "URL is required")
                else app.Json500 (lit "Prediction failed: " ++ exn_str e)
      end)
  /\ (forall urls,
        train_model.extract_features_from_urls urls
        = map (fun url => match extract_features url with
                          | Ok features => features
                          | Raise _ => [0; 0; 0; 0; 0; 0; 0]
                          end) urls
        /\ Forall (fun row => List.length row = 7%nat)
             (train_model.extract_features_from_urls urls)).
Proof.
  pose proof extract_features_shape as Hshape.
  assert (Hmap : forall urls,
            train_model.extract_features_from_urls urls
            = map (fun url => match extract_features url with
                              | Ok features => features
                              | Raise _ => [0; 0; 0; 0; 0; 0; 0]
                              end) urls).
  { intros urls. unfold train_model.extract_features_from_urls.
    apply (extract_features_from_urls_acc urls []). }
  split; [|split].
  - intros url message Hv.
    destruct (validate_url_accepted _ _ Hv) as (_ & parsed & Hp & _).
    specialize (Hshape url). rewrite Hp in Hshape.
    destruct Hshape as (a & b & c & d & e & ->). do 7 eexists. reflexivity.
  - intros url. specialize (Hshape url).
    destruct (urlparse url) as [parsed|e]; [exact Hshape|].
    split; [exact Hshape|]. intros model. unfold app.predict.
    destruct (negb (truthy url)); [reflexivity|].
    rewrite Hshape. reflexivity.
  - intros urls. split; [apply Hmap|]. rewrite Hmap.
    apply Forall_forall. intros row Hrow.
    apply in_map_iff in Hrow as (url & <- & _).
    specialize (Hshape url).
    destruct (urlparse url) as [parsed|e].
    + destruct Hshape as (? & ? & ? & ? & ? & ->). reflexivity.
    + rewrite Hshape. reflexivity.
Qed.

Lemma extract_features_total_on_parsed_urls_witness :
  exists url_length has_ip has_at num_digits has_https num_subdomains
         has_brand_typo,
    extract_features (bc := no_bracket_validation)
      (lit "https://example.com/a")
    = Ok [url_length; has_ip; has_at; num_digits; has_https;
          num_subdomains; has_brand_typo].
Proof.
  apply (proj1 (extract_features_total_on_parsed_urls
                  (bc := no_bracket_validation))
           (lit "https://example.com/a") []).
  vm_compute. reflexivity.
Defined.

(** ** The model scorer *)

Lemma int_of_float_value x q :
  float_value x = Some q -> int_of_float x = Ok (Qtrunc q).
Proof.
  unfold float_value, int_of_float.
  destruct (Prim2SF x) as [s|s| |s m e]; try discriminate.
  - intros H; injection H as <-. reflexivity.
  - intros H; injection H as <-. f_equal. unfold Qtrunc.
    destruct (0 <=? e) eqn:E.
    + destruct s; cbn [Qopp inject_Z Qnum Qden]; rewrite Z.quot_1_r; reflexivity.
    + apply Z.leb_gt in E.
      assert (Hd : Z.pos (2 ^ Z.to_pos (- e)) = 2 ^ (- e)).
      { rewrite Pos2Z.inj_pow, Z2Pos.id by lia. reflexivity. }
      assert (Hp : 0 < 2 ^ (- e)) by (apply Z.pow_pos_nonneg; lia).
      destruct s; cbn [Qopp Qnum Qden]; rewrite Hd.
      * rewrite Z.quot_opp_l by lia.
        rewrite Z.quot_div_nonneg by lia. reflexivity.
      * rewrite Z.quot_div_nonneg by lia. reflexivity.
Qed.

(** C4, as stated: with probability 0.999 on the phishing class the code
    reports the score 99, the integer part of 99.9, where rounding gives
    100, be the product taken in binary64 or exactly. *)
Lemma model_score_is_not_rounded :
  app.score_features (Some sure_classifier) [22; 0; 0; 0; 1; 1; 0]
  = Ok (lit "Phishing", 0.999%float, 99)
  /\ option_map Qround_half_even (float_value (0.999 * 100)%float) = Some 100
  /\ option_map (fun q => Qround_half_even (Qmult q (inject_Z 100)))
       (float_value 0.999%float) = Some 100.
Proof. repeat split; vm_compute; reflexivity. Qed.

(** C4, amended.  With a loaded classifier: when the predicted label is
    phishing the confidence is the probability of the phishing class and
    the score is the integer part, towards zero, of the binary64 product
    confidence * 100; otherwise the confidence is the probability of the
    legitimate class and the score is the integer part of
    (1 - confidence) * 100; the response carries the confidence rounded to
    three decimals. *)
Theorem model_scorer_truncates
  (model : Sklearn.classifier) (features : list Z) (prediction : Z)
  (probability : list float) :
  getitem (Sklearn.predict model [features]) 0 = Ok prediction ->
  getitem (Sklearn.predict_proba model [features]) 0 = Ok probability ->
  (prediction = 1 ->
   forall confidence product,
     getitem probability 1 = Ok confidence ->
     float_value (confidence * 100)%float = Some product ->
     app.score_features (Some model) features
     = Ok (lit "Phishing", confidence, Qtrunc product))
  /\ (prediction <> 1 ->
      forall confidence product,
        getitem probability 0 = Ok confidence ->
        float_value ((1 - confidence) * 100)%float = Some product ->
        app.score_features (Some model) features
        = Ok (lit "Safe", confidence, Qtrunc product))
  /\ (forall (bc : BracketCheck) url status confidence score,
        truthy url = true ->
        extract_features url = Ok features ->
        app.score_features (Some model) features
        = Ok (status, confidence, score) ->
        exists body,
          app.predict (Some model) url = app.Json200 body
          /\ app.prediction body = status
          /\ app.confidence body = app.Round confidence 3
          /\ app.phishing_score body = score
          /\ app.model_used body = lit "Random Forest").
Proof.
  intros Hpred Hproba. split; [|split].
  - intros -> confidence product Hc Hv.
    unfold app.score_features. rewrite Hpred, Hproba. cbn [bind Z.eqb Pos.eqb].
    rewrite Hc. cbn [bind]. rewrite (int_of_float_value _ _ Hv). reflexivity.
  - intros Hne confidence product Hc Hv.
    unfold app.score_features. rewrite Hpred, Hproba. cbn [bind].
    destruct (prediction =? 1) eqn:E; [apply Z.eqb_eq in E; contradiction|].
    rewrite Hc. cbn [bind]. rewrite (int_of_float_value _ _ Hv). reflexivity.
  - intros bc url status confidence score Hurl Hf Hs.
    unfold app.predict. rewrite Hurl, Hf. cbn [negb bind].
    rewrite Hs. cbn [bind].
    pose proof (extract_features_shape url) as Hshape.
    destruct (urlparse url) as [parsed|e].
    + destruct Hshape as (a & b & c & d & e & Hv). rewrite Hv in Hf.
      injection Hf as <-. rewrite get_reasons_fired. cbn [bind].
      eexists. split; [reflexivity|]. repeat split.
    + rewrite Hshape in Hf. discriminate Hf.
Qed.

Lemma model_scorer_truncates_witness :
  app.score_features (Some sure_classifier) [22; 0; 0; 0; 1; 1; 0]
  = Ok (lit "Phishing", 0.999%float, 99)
  /\ app.score_features
       (Some {| Sklearn.predict := fun _ => [0];
                Sklearn.predict_proba := fun _ => [[0.999; 0.001]%float] |})
       [22; 0; 0; 0; 1; 1; 0]
     = Ok (lit "Safe", 0.999%float, 0).
Proof.
  split.
  - apply (proj1 (model_scorer_truncates sure_classifier [22; 0; 0; 0; 1; 1; 0]
                    1 [0.001; 0.999]%float eq_refl eq_refl)
             eq_refl 0.999%float (Qmake 7029837543348634 (2 ^ 46))
             eq_refl).
    vm_compute. reflexivity.
  - apply (proj1 (proj2 (model_scorer_truncates
                    {| Sklearn.predict := fun _ => [0];
                       Sklearn.predict_proba := fun _ => [[0.999; 0.001]%float] |}
                    [22; 0; 0; 0; 1; 1; 0]
                    0 [0.999; 0.001]%float eq_refl eq_refl))
             ltac:(discriminate) 0.999%float (Qmake 7205759403792800 (2 ^ 56))
             eq_refl).
    vm_compute. reflexivity.
Defined.

(** * Further properties *)

(** ** The heuristic scorer and the explanations *)

Lemma mock_score_weighted_sum ul ip at_ nd hs sub typo :
  app.calculate_mock_score [ul; ip; at_; nd; hs; sub; typo]
  = Ok (Z.min (weighted_sum ul ip at_ hs typo sub) 100).
Proof.
  unfold app.calculate_mock_score. cbn [getitem nth_error bind].
  f_equal. unfold weighted_sum, iverson.
  destruct (ul >? 75), (ip =? 1), (at_ =? 1), (hs =? 0), (typo =? 1),
    (sub >? 3); reflexivity.
Qed.

Lemma iverson_gtb_mono x y k :
  (x > k -> y > k) -> iverson (x >? k) <= iverson (y >? k).
Proof.
  unfold iverson. destruct (Z.gtb_spec x k), (Z.gtb_spec y k); lia.
Qed.

Lemma iverson_eqb_mono x y k :
  (x = k -> y = k) -> iverson (x =? k) <= iverson (y =? k).
Proof.
  unfold iverson. destruct (Z.eqb_spec x k), (Z.eqb_spec y k); lia.
Qed.

(** X1.  The heuristic score is monotone in its indicators: when every
    indicator that holds of one vector holds of another, the score of the
    first is at most the score of the second. *)
Theorem mock_score_monotone
  (ul ip at_ nd hs sub typo ul' ip' at' nd' hs' sub' typo' s s' : Z) :
  (ul > 75 -> ul' > 75) -> (ip = 1 -> ip' = 1) -> (at_ = 1 -> at' = 1) ->
  (hs = 0 -> hs' = 0) -> (typo = 1 -> typo' = 1) -> (sub > 3 -> sub' > 3) ->
  app.calculate_mock_score [ul; ip; at_; nd; hs; sub; typo] = Ok s ->
  app.calculate_mock_score [ul'; ip'; at'; nd'; hs'; sub'; typo'] = Ok s' ->
  s <= s'.
Proof.
  intros H1 H2 H3 H4 H5 H6. rewrite !mock_score_weighted_sum.
  intros E E'. injection E as <-. injection E' as <-.
  apply iverson_gtb_mono in H1, H6.
  apply iverson_eqb_mono in H2, H3, H4, H5.
  unfold weighted_sum. lia.
Qed.

Lemma mock_score_monotone_witness : 45 <= 80.
Proof.
  apply (mock_score_monotone 25 1 0 8 0 2 0 25 1 0 8 0 2 1 45 80);
    try (intros; lia); reflexivity.
Defined.

Lemma fired_In cat x : In x (fired cat) -> In x (map snd cat).
Proof.
  unfold fired. intros H. apply in_map_iff in H as (p & <- & Hp).
  apply filter_In in Hp as [Hp _]. apply in_map. exact Hp.
Qed.

Lemma fired_NoDup cat : NoDup (map snd cat) -> NoDup (fired cat).
Proof.
  unfold fired. induction cat as [|[b t] cat IH]; cbn [map filter fst snd].
  - intros _. constructor.
  - intros H. inversion H as [|? ? Hn Hd]; subst.
    destruct b; cbn [map snd]; [|exact (IH Hd)].
    constructor; [|exact (IH Hd)].
    intros Hin. apply Hn. exact (fired_In cat t Hin).
Qed.

Lemma length_fired cat :
  Z.of_nat (List.length (fired cat)) = count_true (map fst cat).
Proof.
  unfold fired, count_true. rewrite length_map. f_equal.
  induction cat as [|[b t] cat IH]; cbn [map filter fst]; [reflexivity|].
  destruct b; cbn [List.length]; rewrite IH; reflexivity.
Qed.

Lemma catalogue_texts ul ip at_ nd hs sub typo :
  map snd (reason_catalogue ul ip at_ nd hs sub typo)
  = [app.reason_long_url; app.reason_ip; app.reason_at; app.reason_no_https;
     app.reason_brand; app.reason_subdomains; app.reason_digits].
Proof. reflexivity. Qed.

Lemma catalogue_texts_NoDup :
  NoDup [app.reason_long_url; app.reason_ip; app.reason_at;
         app.reason_no_https; app.reason_brand; app.reason_subdomains;
         app.reason_digits].
Proof.
  repeat constructor; cbn [In]; intros H;
    repeat (destruct H as [H|H]; [discriminate H|]); exact H.
Qed.

Lemma catalogue_texts_not_standard x :
  In x [app.reason_long_url; app.reason_ip; app.reason_at;
        app.reason_no_https; app.reason_brand; app.reason_subdomains;
        app.reason_digits] ->
  x <> app.reason_standard.
Proof.
  cbn [In]. intros H.
  repeat (destruct H as [H|H]; [subst x; discriminate|]). contradiction.
Qed.

Lemma catalogue_count ul ip at_ nd hs sub typo :
  count_true (map fst (reason_catalogue ul ip at_ nd hs sub typo))
  = count_true (scoring_indicators ul ip at_ hs typo sub)
    + (if nd >? 10 then 1 else 0).
Proof.
  unfold reason_catalogue, scoring_indicators. cbn [map fst].
  destruct (ul >? 75), (ip =? 1), (at_ =? 1), (hs =? 0), (typo =? 1),
    (sub >? 3), (nd >? 10); reflexivity.
Qed.

(** X2.  The fallback label follows the number of indicators that hold:
    with four or more the label is Phishing, with two or fewer it is Safe,
    and the score is 0 exactly when none holds.  A vector labelled Phishing
    is explained by at least three reasons, none of them the standard
    text. *)
Theorem heuristic_label_by_indicator_count (ul ip at_ nd hs sub typo : Z) :
  exists status score reasons,
    app.score_features None [ul; ip; at_; nd; hs; sub; typo]
    = Ok (status, 0.8%float, score)
    /\ app.get_reasons [ul; ip; at_; nd; hs; sub; typo] = Ok reasons
    /\ let n := count_true (scoring_indicators ul ip at_ hs typo sub) in
       (4 <= n -> status = lit "Phishing")
       /\ (n <= 2 -> status = lit "Safe")
       /\ (score = 0 <-> n = 0)
       /\ (status = lit "Phishing" ->
           3 <= Z.of_nat (List.length reasons)
           /\ ~ In app.reason_standard reasons).
Proof.
  do 3 eexists. split; [apply score_features_fallback|].
  split; [apply get_reasons_fired|]. cbv zeta.
  assert (Hlabel :
    (4 <= count_true (scoring_indicators ul ip at_ hs typo sub) ->
     (if Z.min (weighted_sum ul ip at_ hs typo sub) 100 >=? 70
      then lit "Phishing" else lit "Safe") = lit "Phishing")
    /\ (count_true (scoring_indicators ul ip at_ hs typo sub) <= 2 ->
        (if Z.min (weighted_sum ul ip at_ hs typo sub) 100 >=? 70
         then lit "Phishing" else lit "Safe") = lit "Safe")
    /\ (Z.min (weighted_sum ul ip at_ hs typo sub) 100 = 0 <->
        count_true (scoring_indicators ul ip at_ hs typo sub) = 0)
    /\ ((if Z.min (weighted_sum ul ip at_ hs typo sub) 100 >=? 70
         then lit "Phishing" else lit "Safe") = lit "Phishing" ->
        3 <= count_true (scoring_indicators ul ip at_ hs typo sub))).
  { unfold weighted_sum, iverson, scoring_indicators, count_true.
    destruct (ul >? 75), (ip =? 1), (at_ =? 1), (hs =? 0), (typo =? 1),
      (sub >? 3); cbn; repeat split; intros; try lia; try reflexivity;
      try discriminate. }
  destruct Hlabel as (H4 & H2 & H0 & H3).
  split; [exact H4|]. split; [exact H2|]. split; [exact H0|].
  intros Hp. specialize (H3 Hp).
  pose proof (length_fired (reason_catalogue ul ip at_ nd hs sub typo)) as Hl.
  rewrite catalogue_count in Hl.
  destruct (fired (reason_catalogue ul ip at_ nd hs sub typo)) as [|r rs] eqn:E.
  - cbn [List.length] in Hl. destruct (nd >? 10); lia.
  - split; [rewrite Hl; destruct (nd >? 10); lia|].
    intros Hin. rewrite <- E in Hin. apply fired_In in Hin.
    rewrite catalogue_texts in Hin.
    exact (catalogue_texts_not_standard _ Hin eq_refl).
Qed.

Lemma heuristic_label_by_indicator_count_witness :
  exists status score,
    app.score_features None [80; 1; 1; 0; 0; 0; 0]
    = Ok (status, 0.8%float, score)
    /\ status = lit "Phishing".
Proof.
  destruct (heuristic_label_by_indicator_count 80 1 1 0 0 0 0)
    as (status & score & reasons & H & _ & H4 & _).
  exists status, score. split; [exact H|]. apply H4.
  vm_compute. discriminate.
Defined.

(** X3.  The explanation of a vector of seven is never empty, has at most
    seven reasons and no reason twice; the standard text appears exactly
    when it is the whole explanation, which is exactly when none of the
    seven predicates holds. *)
Theorem get_reasons_shape (ul ip at_ nd hs sub typo : Z) :
  exists reasons,
    app.get_reasons [ul; ip; at_; nd; hs; sub; typo] = Ok reasons
    /\ reasons <> []
    /\ (List.length reasons <= 7)%nat
    /\ NoDup reasons
    /\ (In app.reason_standard reasons <-> reasons = [app.reason_standard])
    /\ (reasons = [app.reason_standard] <->
        count_true (scoring_indicators ul ip at_ hs typo sub) = 0
        /\ nd <= 10).
Proof.
  eexists. split; [apply get_reasons_fired|].
  pose proof (length_fired (reason_catalogue ul ip at_ nd hs sub typo)) as Hl.
  pose proof (fired_NoDup (reason_catalogue ul ip at_ nd hs sub typo)) as Hnd.
  rewrite catalogue_texts in Hnd. specialize (Hnd catalogue_texts_NoDup).
  assert (Hin : forall x,
            In x (fired (reason_catalogue ul ip at_ nd hs sub typo)) ->
            x <> app.reason_standard).
  { intros x Hx. apply fired_In in Hx. rewrite catalogue_texts in Hx.
    exact (catalogue_texts_not_standard x Hx). }
  assert (Hcount : 0 <= count_true (scoring_indicators ul ip at_ hs typo sub))
    by (unfold count_true; lia).
  assert (Hle : count_true (map fst (reason_catalogue ul ip at_ nd hs sub typo))
                <= 7).
  { unfold reason_catalogue, count_true. cbn [map fst].
    destruct (ul >? 75), (ip =? 1), (at_ =? 1), (hs =? 0), (typo =? 1),
      (sub >? 3), (nd >? 10); cbn; lia. }
  rewrite catalogue_count in Hl, Hle.
  destruct (fired (reason_catalogue ul ip at_ nd hs sub typo)) as [|r rs] eqn:E.
  - cbn [List.length] in Hl.
    split; [discriminate|]. split; [cbn; lia|].
    split; [repeat constructor; intros []|].
    split; [split; [intros _; reflexivity | intros _; left; reflexivity]|].
    split; [intros _; destruct (Z.gtb_spec nd 10); lia
           | intros _; reflexivity].
  - assert (Hr : r <> app.reason_standard)
      by (apply Hin; left; reflexivity).
    split; [discriminate|]. split; [lia|]. split; [exact Hnd|].
    split; [split; [intros H; exfalso; exact (Hin _ H eq_refl)
                   | intros H; injection H as -> _; congruence]|].
    split; [intros H; injection H as -> _; congruence|].
    intros [H0 Hd]. exfalso. cbn [List.length] in Hl.
    destruct (Z.gtb_spec nd 10); lia.
Qed.

(** X4.  Both readers of the feature vector index its first seven
    components: on a shorter vector each raises IndexError, and on a
    longer one each returns what it returns on the first seven. *)
Theorem feature_vector_bounds (features : list Z) :
  ((List.length features < 7)%nat ->
   app.calculate_mock_score features
   = Raise (IndexError (lit "list index out of range"))
   /\ app.get_reasons features
      = Raise (IndexError (lit "list index out of range")))
  /\ ((7 <= List.length features)%nat ->
      app.calculate_mock_score features
      = app.calculate_mock_score (firstn 7 features)
      /\ app.get_reasons features = app.get_reasons (firstn 7 features)
      /\ (exists score, app.calculate_mock_score features = Ok score)
      /\ (exists reasons, app.get_reasons features = Ok reasons)).
Proof.
  destruct features as [|a [|b [|c [|d [|e [|f [|g rest]]]]]]];
    (split; [intros H | intros H]); cbn [List.length] in H; try lia;
    try (split; reflexivity).
  split; [reflexivity|]. split; [reflexivity|].
  split; eexists; reflexivity.
Qed.

Lemma feature_vector_bounds_witness :
  app.calculate_mock_score [80; 1]
  = Raise (IndexError (lit "list index out of range"))
  /\ app.get_reasons [80; 1]
     = Raise (IndexError (lit "list index out of range")).
Proof.
  apply (proj1 (feature_vector_bounds [80; 1])). cbn [List.length]. lia.
Defined.

(** X5.  With no model loaded the /predict handler answers 400 exactly on
    the empty URL and 500 exactly when [urlparse] raises; on every other
    URL it answers 200 with the URL echoed, a score between 0 and 100, the
    label Phishing exactly when the score is at least 70, the confidence
    round(0.8, 3), the seven features under their names, a non-empty
    explanation and the tag Mock. *)
Theorem predict_fallback_responses {bc : BracketCheck} (url : str) :
  match url, urlparse url with
  | [], _ => app.predict None url = app.Json400 (lit "URL is required")
  | _ :: _, Raise e =>
      app.predict None url
      = app.Json500 (lit "Prediction failed: " ++ exn_str e)
  | _ :: _, Ok parsed =>
      exists body,
        app.predict None url = app.Json200 body
        /\ app.url body = url
        /\ 0 <= app.phishing_score body <= 100
        /\ (app.prediction body = lit "Phishing" /\ 70 <= app.phishing_score body
            \/ app.prediction body = lit "Safe" /\ app.phishing_score body < 70)
        /\ app.confidence body = app.Round 0.8%float 3
        /\ map fst (app.features body) = app.feature_names
        /\ extract_features url = Ok (map snd (app.features body))
        /\ app.reasons body <> []
        /\ app.model_used body = lit "Mock"
  end.
Proof.
  destruct url as [|c url]; [reflexivity|].
  pose proof (extract_features_shape (c :: url)) as Hshape.
  destruct (urlparse (c :: url)) as [parsed|e].
  - destruct Hshape as (ip & at_ & nd & hs & sub & Hf).
    unfold app.predict. cbn [truthy negb]. rewrite Hf. cbn [bind].
    rewrite score_features_fallback. cbn [bind].
    rewrite get_reasons_fired. cbn [bind].
    eexists. split; [reflexivity|]. cbn [app.url app.phishing_score
      app.prediction app.confidence app.features app.reasons app.model_used].
    pose proof (weighted_sum_bounds (len (c :: url)) ip at_ hs
                  (brand_typo (netloc parsed)) sub) as Hb.
    split; [reflexivity|]. split; [lia|].
    split.
    { destruct (Z.geb_spec (Z.min (weighted_sum (len (c :: url)) ip at_ hs
                                     (brand_typo (netloc parsed)) sub) 100) 70);
        [left | right]; split; try reflexivity; lia. }
    split; [reflexivity|]. split; [reflexivity|]. split; [reflexivity|].
    split; [|reflexivity].
    destruct (fired _); discriminate.
  - unfold app.predict. cbn [truthy negb]. rewrite Hshape. reflexivity.
Qed.

(** ** The feature vector *)



(** X7.  A URL flagged as holding an IP address has at least three dots
    in its authority, hence a subdomain count of at least 2, at least four
    digits and at least seven characters. *)
Theorem has_ip_forces_other_features {bc : BracketCheck} (url : str)
  (url_length has_ip has_at num_digits has_https num_subdomains
     has_brand_typo : Z) :
  extract_features url
  = Ok [url_length; has_ip; has_at; num_digits; has_https; num_subdomains;
        has_brand_typo] ->
  has_ip = 1 ->
  2 <= num_subdomains /\ 4 <= num_digits /\ 7 <= url_length.
Proof.
  intros Hf Hip.
  pose proof (extract_features_shape url) as Hshape.
  destruct (urlparse url) as [parsed|e] eqn:Hp;
    [|rewrite Hshape in Hf; discriminate Hf].
  rewrite (extract_features_values url parsed Hp) in Hf.
  injection Hf as <- <- _ <- _ <- _.
  destruct (Re.search_from ip_regex (netloc parsed)) eqn:E; [|discriminate Hip].
  apply search_ip_dotted_quad in E as (pre & w & post & Hn & Hw).
  apply dotted_quad_counts in Hw as (Hd & Hdots & Hlen).
  assert (Hsub : substring w (netloc parsed)) by (exists pre, post; exact Hn).
  pose proof (count_if_substring isdigit _ _ Hsub) as H1.
  pose proof (count_if_substring (Ascii.eqb ".") _ _ Hsub) as H2.
  pose proof (count_if_authority isdigit url parsed Hp) as H3.
  pose proof (count_if_authority (fun _ => true) url parsed Hp) as H4.
  assert (Hall : forall t, count_if (fun _ => true) t = len t).
  { intros t. unfold count_if, len. f_equal. f_equal.
    induction t as [|a t IH]; cbn; [reflexivity | f_equal; exact IH]. }
  rewrite !Hall in H4.
  pose proof (count_if_substring (fun _ => true) _ _ Hsub) as H5.
  rewrite !Hall in H5.
  destruct (netloc parsed) as [|c n] eqn:En.
  - change (count_if (Ascii.eqb ".") []) with 0 in H2. lia.
  - cbn [truthy]. rewrite count_as_count_if. lia.
Qed.

Lemma has_ip_forces_other_features_witness :
  2 <= 2 /\ 4 <= 8 /\ 7 <= 25.
Proof.
  apply (has_ip_forces_other_features (bc := no_bracket_validation)
           (lit "http://192.168.1.1/paypal") 25 1 0 8 0 2 0);
    reflexivity.
Defined.

(** ** The brand-typo candidates that can fire *)

Lemma substring_trans a b c : substring a b -> substring b c -> substring a c.
Proof.
  intros (p & q & ->) (p' & q' & ->). exists (p' ++ p), (q ++ q').
  rewrite <- !app_assoc. reflexivity.
Qed.

Lemma lower_char_idem c : lower_char (lower_char c) = lower_char c.
Proof. destruct c as [[] [] [] [] [] [] [] []]; reflexivity. Qed.

Lemma lower_idem t : lower (lower t) = lower t.
Proof.
  unfold lower. rewrite map_map. apply map_ext. intros c. apply lower_char_idem.
Qed.

(** X8.  Of the eight candidate patterns of a brand only the four
    character substitutions can fire: a candidate that holds the brand
    itself (the brand with -login, -verify or -secure appended or secure-
    prepended, or a substitution that leaves the brand unchanged) never
    sets the flag.  The flag is therefore 1 exactly when some brand with
    o, l, i or e replaced throughout occurs in the lower-cased authority
    while the brand does not.  The flag ignores the letter case of the
    authority. *)
Theorem brand_typo_only_substitutions (domain : str) :
  (brand_typo domain = 1 <->
   exists brand old new,
     In brand brands /\ In (old, new) typo_substitutions
     /\ substring (replace old new brand) (lower domain)
     /\ ~ substring brand (lower domain))
  /\ (forall brand pre post d,
        scan_patterns [pre ++ brand ++ post] brand d 0 = 0)
  /\ brand_typo (lower domain) = brand_typo domain.
Proof.
  split; [|split].
  - unfold brand_typo. rewrite (proj1 (scan_brands_spec brands (lower domain))).
    split.
    + intros (brand & Hb & pattern & Hp & Hs & Hn).
      exists brand.
      cbn [typo_patterns In] in Hp.
      destruct Hp as [<-|[<-|[<-|[<-|Hp]]]].
      * exists "o"%char, (lit "0"). cbn [typo_substitutions In]. tauto.
      * exists "l"%char, (lit "1"). cbn [typo_substitutions In]. tauto.
      * exists "i"%char, (lit "1"). cbn [typo_substitutions In]. tauto.
      * exists "e"%char, (lit "3"). cbn [typo_substitutions In]. tauto.
      * exfalso. apply Hn. apply (substring_trans _ pattern); [|exact Hs].
        destruct Hp as [<-|[<-|[<-|[<-|[]]]]].
        -- exists [], (lit "-login"). reflexivity.
        -- exists [], (lit "-verify"). reflexivity.
        -- exists [], (lit "-secure"). reflexivity.
        -- exists (lit "secure-"), []. rewrite app_nil_r. reflexivity.
    + intros (brand & old & new & Hb & Hsub & Hs & Hn).
      exists brand. split; [exact Hb|].
      exists (replace old new brand). split; [|split; assumption].
      cbn [typo_substitutions In] in Hsub. cbn [typo_patterns In].
      destruct Hsub as [E|[E|[E|[E|[]]]]]; injection E as <- <-; tauto.
  - intros brand pre post d. cbn [scan_patterns].
    destruct (contains (pre ++ brand ++ post) d) eqn:E1; [|reflexivity].
    destruct (contains brand d) eqn:E2; [reflexivity|]. exfalso.
    apply contains_spec in E1. apply contains_false_spec in E2. apply E2.
    apply (substring_trans _ (pre ++ brand ++ post)); [|exact E1].
    exists pre, post. reflexivity.
  - unfold brand_typo. rewrite lower_idem. reflexivity.
Qed.

(** ** Sanitizer, validator and scorer together *)

Lemma In_escape_reserved c t :
  In c (lit "<>'") \/ c = ascii_of_nat 34 -> ~ In c (Html.escape t).
Proof.
  intros Hc Hin. unfold Html.escape in Hin.
  assert (Hnew : forall new, In new (map lit ["&amp;"; "&lt;"; "&gt;"; "&quot;";
                                               "&#x27;"]%string) ->
                 ~ In c new).
  { intros new Hn Hcn. cbn [map In] in Hn.
    destruct Hc as [Hc| ->].
    - cbn [lit list_ascii_of_string In] in Hc.
      destruct Hc as [<-|[<-|[<-|[]]]];
        repeat (destruct Hn as [<-|Hn]; [vm_compute in Hcn; intuition discriminate|]);
        contradiction.
    - repeat (destruct Hn as [<-|Hn]; [vm_compute in Hcn; intuition discriminate|]);
        contradiction. }
  apply In_replace in Hin as [Hin|[Hin H5]];
    [apply (Hnew (lit "&#x27;")); [cbn; tauto | exact Hin]|].
  apply In_replace in Hin as [Hin|[Hin H4]];
    [apply (Hnew (lit "&quot;")); [cbn; tauto | exact Hin]|].
  apply In_replace in Hin as [Hin|[Hin H3]];
    [apply (Hnew (lit "&gt;")); [cbn; tauto | exact Hin]|].
  apply In_replace in Hin as [Hin|[Hin H2]];
    [apply (Hnew (lit "&lt;")); [cbn; tauto | exact Hin]|].
  destruct Hc as [Hc| ->]; [|apply H4; reflexivity].
  cbn [lit list_ascii_of_string In] in Hc.
  destruct Hc as [<-|[<-|[<-|[]]]]; [apply H2 | apply H3 | apply H5]; reflexivity.
Qed.

Lemma sanitize_str_no_reserved c t sanitized :
  sanitize_input (PyStr t) = Ok sanitized ->
  In c (lit "<>'") \/ c = ascii_of_nat 34 ->
  ~ In c sanitized.
Proof.
  rewrite sanitize_input_str. cbv zeta. intros E Hc Hin.
  apply Ok_inj in E. subst sanitized.
  apply In_strip, In_truncate in Hin.
  exact (In_escape_reserved c _ Hc Hin).
Qed.

Lemma lower_char_angle c : lower_char c = "<"%char -> c = "<"%char.
Proof. destruct c as [[] [] [] [] [] [] [] []]; cbn; congruence. Qed.

Lemma In_angle_lower t : In "<"%char (lower t) -> In "<"%char t.
Proof.
  unfold lower. intros H. apply in_map_iff in H as (c & Hc & Hin).
  apply lower_char_angle in Hc. subst. exact Hin.
Qed.

Lemma markup_pattern_text d :
  In d dangerous -> In (fst d) markup_patterns ->
  exists rest, snd d = "<"%char :: rest.
Proof.
  intros Hd Hm. cbn [dangerous In] in Hd.
  repeat (destruct Hd as [<-|Hd];
          [first [eexists; reflexivity
                 | exfalso; cbn [fst markup_patterns map In] in Hm;
                   intuition discriminate]|]).
  contradiction.
Qed.

(** X9.  The sanitized form of a string holds none of the characters
    less-than, greater-than, double quote and apostrophe.  Hence in the
    pipeline a string URL is never rejected for one of the four dangerous
    patterns that start with an angle bracket. *)
Theorem sanitized_text_has_no_markup {bc : BracketCheck} (t : str) :
  (exists sanitized,
      sanitize_input (PyStr t) = Ok sanitized
      /\ forall c, In c (lit "<>'") \/ c = ascii_of_nat 34 ->
                   ~ In c sanitized)
  /\ (forall items is_valid message data pattern,
        dict_get (lit "url") items = Some (PyStr t) ->
        validate_api_request (Dict items) = Ok (is_valid, message, data) ->
        In pattern markup_patterns ->
        message <> malicious_message pattern).
Proof.
  destruct (sanitize_str_returns t) as [sanitized Hs].
  split.
  { exists sanitized. split; [exact Hs|].
    intros c. exact (sanitize_str_no_reserved c t sanitized Hs). }
  intros items is_valid message data pattern Hget Hv Hp Hm.
  unfold validate_api_request in Hv. rewrite Hget, Hs in Hv.
  cbn [bind] in Hv.
  pose proof (sanitize_str_length t _ Hs) as Hlen.
  assert (Hlt : ~ In "<"%char sanitized)
    by (apply (sanitize_str_no_reserved _ t _ Hs); left; cbn; tauto).
  clear Hs. destruct sanitized as [|c s].
  - vm_compute in Hv. injection Hv as <- <- <-.
    cbn [markup_patterns map In] in Hp.
    repeat (destruct Hp as [<-|Hp]; [discriminate Hm|]). contradiction.
  - rewrite validate_url_stages in Hv;
      [|discriminate | exact Hlen].
    cbn [bind] in Hv.
    destruct (find (fun d => contains (snd d) (lower (c :: s))) dangerous)
      as [d|] eqn:Ef.
    + apply find_some in Ef as [Hd Hc].
      assert (Hmsg : message = malicious_message (fst d))
        by (cbn [negb] in Hv; injection Hv as _ <- _; reflexivity).
      rewrite Hmsg in Hm. unfold malicious_message in Hm.
      apply app_inv_head in Hm. rewrite <- Hm in Hp.
      destruct (markup_pattern_text d Hd Hp) as [rest Hrest].
      apply contains_spec in Hc as (pre & post & Hc). rewrite Hrest in Hc.
      apply Hlt, In_angle_lower. rewrite Hc. apply in_or_app. right.
      left. reflexivity.
    + unfold parse_verdict in Hv.
      cbn [markup_patterns map In] in Hp.
      destruct (urlparse (c :: s)) as [parsed|e].
      * destruct (negb (truthy (scheme parsed)) || negb (truthy (netloc parsed)));
          [|destruct (negb (existsb (str_eqb (scheme parsed))
                              [lit "http"; lit "https"]))];
          cbn [negb] in Hv; injection Hv as _ <- _;
          repeat (destruct Hp as [<-|Hp]; [discriminate Hm|]); contradiction.
      * cbn [negb] in Hv. injection Hv as _ <- _.
        unfold malicious_message in Hm.
        repeat (destruct Hp as [<-|Hp]; [discriminate Hm|]). contradiction.
Qed.

Lemma sanitized_text_has_no_markup_witness :
  lit "Invalid URL format" <> malicious_message (lit "<script").
Proof.
  apply (proj2 (sanitized_text_has_no_markup (bc := no_bracket_validation)
                  (lit "<script>alert</script>"))
           [(lit "url", PyStr (lit "<script>alert</script>"))]
           false (lit "Invalid URL format") [] (lit "<script") eq_refl).
  - vm_compute. reflexivity.
  - cbn. tauto.
Defined.

Lemma rstrip_last p t :
  rstrip_with p t = [] \/ exists r c, rstrip_with p t = r ++ [c] /\ p c = false.
Proof.
  unfold rstrip_with.
  destruct (dropwhile_head p (rev t)) as [->|(a & r & -> & E)];
    [left; reflexivity|].
  right. exists (rev r), a. split; [reflexivity | exact E].
Qed.

Lemma rstrip_keeps_head p a t :
  p a = false -> exists r, rstrip_with p (a :: t) = a :: r.
Proof.
  intros E. unfold rstrip_with. cbn [rev].
  rewrite (dropwhile_app_stop p (rev t) a [] E), rev_app_distr.
  eexists. reflexivity.
Qed.

(** X10.  The sanitized form of a string neither starts nor ends with a
    whitespace character, and is empty when the string holds nothing but
    whitespace and null characters. *)
Theorem sanitized_text_is_stripped (t : str) :
  exists sanitized,
    sanitize_input (PyStr t) = Ok sanitized
    /\ (forall c rest, sanitized = c :: rest -> isspace c = false)
    /\ (forall rest c, sanitized = rest ++ [c] -> isspace c = false)
    /\ (forallb (fun c => isspace c || Ascii.eqb c Ascii.zero) t = true ->
        sanitized = []).
Proof.
  rewrite sanitize_input_str. cbv zeta.
  match goal with
  | |- context [strip ?x] => remember x as u eqn:Hu
  end.
  exists (strip u). split; [reflexivity|].
  split; [|split].
  - intros c rest H. unfold strip, lstrip_with in H.
    destruct (dropwhile_head isspace u) as [E|(a & r & E & Ea)]; rewrite E in H.
    + discriminate H.
    + destruct (rstrip_keeps_head isspace a r Ea) as [r' Hr].
      rewrite Hr in H. injection H as <- _. exact Ea.
  - intros rest c H. unfold strip in H.
    destruct (rstrip_last isspace (lstrip_with isspace u))
      as [E|(r & a & E & Ea)]; rewrite E in H.
    + destruct rest; discriminate H.
    + apply app_inj_tail in H as [_ <-]. exact Ea.
  - intros Hall.
    assert (Hsp : forall c, In c u -> isspace c = true).
    { intros c Hc. subst u. apply In_truncate in Hc.
      assert (Hr : reserved_free (replace Ascii.zero [] t) = true).
      { apply reserved_free_spec. intros x Hx Hres.
        apply In_replace in Hx as [[]|[Hx Hz]].
        rewrite forallb_forall in Hall. specialize (Hall x Hx).
        apply orb_true_iff in Hall as [Hs|Hs];
          [|apply Ascii.eqb_eq in Hs; contradiction].
        cbn [html_reserved In] in Hres.
        destruct Hres as [<-|[<-|[<-|[<-|[<-|[]]]]]]; discriminate Hs. }
      rewrite (escape_reserved_free _ Hr) in Hc.
      apply In_replace in Hc as [[]|[Hc Hz]].
      rewrite forallb_forall in Hall. specialize (Hall c Hc).
      apply orb_true_iff in Hall as [Hs|Hs];
        [exact Hs | apply Ascii.eqb_eq in Hs; contradiction]. }
    unfold strip, lstrip_with.
    destruct (dropwhile_head isspace u) as [->|(a & r & E & Ea)];
      [reflexivity|].
    assert (Ha : In a u).
    { apply (In_dropwhile isspace). rewrite E. left; reflexivity. }
    rewrite (Hsp a Ha) in Ea. discriminate Ea.
Qed.

Lemma sanitized_text_is_stripped_witness :
  isspace "h"%char = false /\ isspace "1"%char = false
  /\ sanitize_input (PyStr [" "%char; Ascii.zero; ascii_of_nat 9]) = Ok [].
Proof.
  split; [|split].
  - destruct (sanitized_text_is_stripped (lit "  http://a.b/?x=1  "))
      as (sanitized & Hs & Hhead & _).
    apply Ok_inj in Hs.
    apply (Hhead "h"%char (lit "ttp://a.b/?x=1")).
    rewrite <- Hs. vm_compute. reflexivity.
  - destruct (sanitized_text_is_stripped (lit "  http://a.b/?x=1  "))
      as (sanitized & Hs & _ & Hlast & _).
    apply Ok_inj in Hs.
    apply (Hlast (lit "http://a.b/?x=") "1"%char).
    rewrite <- Hs. vm_compute. reflexivity.
  - destruct (sanitized_text_is_stripped
                [" "%char; Ascii.zero; ascii_of_nat 9])
      as (sanitized & Hs & _ & _ & Hempty).
    rewrite Hs. f_equal. apply Hempty. vm_compute. reflexivity.
Defined.

(** X11.  The validator accepts a text exactly when it is not empty, has
    at most 2048 characters, holds none of the ten dangerous texts in its
    lower-cased form, and [urlparse] reads from it the scheme http or
    https and a non-empty authority; the message of an accepted text is
    empty.  Hence a text that holds any of the ten dangerous texts, in
    any mix of letter cases, is rejected. *)
Theorem validate_url_accepts_exactly {bc : BracketCheck} (url : str) :
  (validate_url url = Ok (true, []) <->
   url <> [] /\ len url <= 2048 /\ harmless (lower url)
   /\ exists parsed,
       urlparse url = Ok parsed /\ netloc parsed <> []
       /\ (scheme parsed = lit "http" \/ scheme parsed = lit "https"))
  /\ (forall message, validate_url url = Ok (true, message) -> message = [])
  /\ (forall d pre mid post,
        In d dangerous -> url = pre ++ mid ++ post -> lower mid = snd d ->
        exists message, validate_url url = Ok (false, message)).
Proof.
  assert (Hacc : forall message,
            validate_url url = Ok (true, message) ->
            message = [] /\ url <> [] /\ len url <= 2048
            /\ harmless (lower url)
            /\ exists parsed,
                urlparse url = Ok parsed /\ netloc parsed <> []
                /\ (scheme parsed = lit "http" \/ scheme parsed = lit "https")).
  { intros message H.
    destruct (validate_url_accepted url message H) as (Hm & parsed & Hp & Hn & Hs).
    split; [exact Hm|].
    destruct url as [|c url]; [discriminate H|]. split; [discriminate|].
    destruct (len (c :: url) >? 2048) eqn:E.
    { rewrite validate_url_too_long in H by (apply Z.gtb_lt in E; lia).
      discriminate H. }
    rewrite Z.gtb_ltb in E. apply Z.ltb_ge in E. split; [exact E|].
    split; [|exists parsed; auto].
    apply find_none_harmless.
    rewrite validate_url_stages in H by (discriminate || exact E).
    destruct (find _ dangerous); [discriminate H | reflexivity]. }
  split; [|split].
  - split.
    + intros H. destruct (Hacc [] H) as (_ & H1 & H2 & H3 & H4). auto.
    + intros (Hne & Hlen & Hh & parsed & Hp & Hn & Hs).
      rewrite validate_url_stages by assumption.
      apply find_none_harmless in Hh. rewrite Hh, Hp. unfold parse_verdict.
      destruct (netloc parsed) as [|b n]; [congruence|].
      destruct Hs as [-> | ->]; reflexivity.
  - intros message H. exact (proj1 (Hacc message H)).
  - intros d pre mid post Hd -> Hmid.
    destruct (validate_url_returns (pre ++ mid ++ post))
      as ([|] & message & Hv); [|exists message; exact Hv].
    exfalso. destruct (Hacc message Hv) as (_ & _ & _ & Hh & _).
    apply (Hh d Hd). exists (lower pre), (lower post).
    rewrite !lower_app, Hmid. reflexivity.
Qed.

Lemma validate_url_accepts_exactly_witness :
  validate_url (bc := no_bracket_validation) (lit "https://example.com/a")
  = Ok (true, [])
  /\ exists message,
      validate_url (bc := no_bracket_validation)
        (lit "https://example.com/?q=ALERT(1)")
      = Ok (false, message).
Proof.
  split.
  - apply (proj1 (validate_url_accepts_exactly (bc := no_bracket_validation)
                    (lit "https://example.com/a"))).
    split; [discriminate|]. split; [vm_compute; discriminate|].
    split; [apply find_none_harmless; reflexivity|].
    eexists. split; [reflexivity|]. split; [discriminate | right; reflexivity].
  - apply (proj2 (proj2 (validate_url_accepts_exactly
                           (bc := no_bracket_validation)
                           (lit "https://example.com/?q=ALERT(1)")))
             (lit "alert\(", lit "alert(")
             (lit "https://example.com/?q=") (lit "ALERT(") (lit "1)")).
    + cbn. tauto.
    + reflexivity.
    + reflexivity.
Defined.

(** X12.  A request that is no dict, or that lacks the key url, is
    rejected with a message of its own and empty data.  When a request is
    accepted, its message is empty and its data hold, under url, the
    sanitized URL; that URL is accepted by the validator, is read by the
    extractor without an exception, and the /predict handler with no model
    loaded answers it with 200, never with 400 or 500. *)
Theorem accepted_request_is_scored {bc : BracketCheck} :
  validate_api_request NotADict
  = Ok (false, lit "Request data must be a JSON object", [])
  /\ (forall items, dict_get (lit "url") items = None ->
        validate_api_request (Dict items)
        = Ok (false, lit "Missing required field: url", []))
  /\ (forall request message data,
        validate_api_request request = Ok (true, message, data) ->
        exists items value sanitized,
          request = Dict items
          /\ dict_get (lit "url") items = Some value
          /\ sanitize_input value = Ok sanitized
          /\ message = []
          /\ data = [(lit "url", sanitized)]
          /\ validate_url sanitized = Ok (true, [])
          /\ (exists features, extract_features sanitized = Ok features
                               /\ List.length features = 7%nat)
          /\ exists body,
              app.predict None sanitized = app.Json200 body
              /\ app.url body = sanitized).
Proof.
  split; [reflexivity|]. split.
  - intros items H. unfold validate_api_request. rewrite H. reflexivity.
  - intros request message data H.
    destruct request as [|items]; [discriminate H|].
    unfold validate_api_request in H.
    destruct (dict_get (lit "url") items) as [value|] eqn:Hget;
      [|discriminate H].
    destruct (sanitize_input value) as [sanitized|e] eqn:Hsan;
      [|discriminate H].
    cbn [bind] in H.
    destruct (validate_url_returns sanitized) as (is_valid & msg & Hv).
    rewrite Hv in H. cbn [bind] in H.
    destruct is_valid; cbn [negb] in H; [|discriminate H].
    injection H as <- <-.
    destruct (validate_url_accepted _ _ Hv) as (-> & parsed & Hp & Hn & Hs).
    exists items, value, sanitized.
    split; [reflexivity|]. split; [exact Hget|]. split; [exact Hsan|].
    split; [reflexivity|]. split; [reflexivity|]. split; [exact Hv|].
    assert (Hne : sanitized <> []).
    { intros E. rewrite E in Hv. discriminate Hv. }
    destruct (predict_fallback_ok sanitized parsed Hne Hp)
      as (features & body & Hf & Hlen & Hb & Hu & _).
    split.
    + exists features. split; [exact Hf | exact Hlen].
    + exists body. split; [exact Hb | exact Hu].
Qed.

Lemma accepted_request_is_scored_witness :
  exists body,
    app.predict (bc := no_bracket_validation) None
      (lit "https://example.com/a")
    = app.Json200 body
    /\ app.url body = lit "https://example.com/a".
Proof.
  destruct (proj2 (proj2 (accepted_request_is_scored
                            (bc := no_bracket_validation)))
              (Dict [(lit "url", PyStr (lit " https://example.com/a "))])
              [] [(lit "url", lit "https://example.com/a")] eq_refl)
    as (items & value & sanitized & Hreq & Hget & Hsan & _ & _ & _ & _ & Hbody).
  injection Hreq as <-. injection Hget as <-.
  apply Ok_inj in Hsan.
  assert (E : sanitized = lit "https://example.com/a")
    by (rewrite <- Hsan; vm_compute; reflexivity).
  rewrite E in Hbody. exact Hbody.
Defined.

(** ** The allow-list of domains *)

Lemma split_not_nil sep t : split sep t <> [].
Proof.
  destruct t as [|c t]; cbn [split]; [discriminate|].
  destruct (Ascii.eqb c sep); [discriminate|].
  destruct (split sep t); discriminate.
Qed.

Lemma split_app sep a b :
  split sep (a ++ sep :: b) = split sep a ++ split sep b.
Proof.
  induction a as [|c a IH]; cbn [split app].
  - rewrite Ascii.eqb_refl. reflexivity.
  - rewrite IH. destruct (Ascii.eqb c sep); [reflexivity|].
    pose proof (split_not_nil sep a) as Hne.
    destruct (split sep a); [congruence | reflexivity].
Qed.

Lemma join_cons sep p rest :
  rest <> [] -> join sep (p :: rest) = p ++ sep ++ join sep rest.
Proof. destruct rest; [congruence | reflexivity]. Qed.

Lemma join_split sep t : join [sep] (split sep t) = t.
Proof.
  induction t as [|c t IH]; [reflexivity|]. cbn [split].
  pose proof (split_not_nil sep t) as Hne.
  destruct (Ascii.eqb c sep) eqn:E.
  - apply Ascii.eqb_eq in E. subst c.
    rewrite join_cons by exact Hne. rewrite IH. reflexivity.
  - destruct (split sep t) as [|field fields]; [congruence|].
    destruct fields as [|f fields]; [cbn in *; congruence|].
    rewrite join_cons by discriminate. rewrite join_cons in IH by discriminate.
    rewrite <- IH. reflexivity.
Qed.

(** The loop finds a listed domain exactly when the parts from some index
    on, joined again, are listed. *)
Lemma scan_parent_domains_spec parts :
  scan_parent_domains parts = true <->
  exists before rest,
    parts = before ++ rest /\ rest <> []
    /\ In (join (lit ".") rest) safe_domains.
Proof.
  induction parts as [|p parts IH].
  - split; [discriminate|]. intros (before & rest & H & Hne & _).
    destruct before, rest; cbn in H; congruence.
  - cbn [scan_parent_domains].
    destruct (existsb _ safe_domains) eqn:E.
    + split; [intros _|reflexivity]. exists [], (p :: parts).
      split; [reflexivity|]. split; [discriminate|].
      apply existsb_exists in E as (s & Hs & Heq).
      apply str_eqb_spec in Heq. rewrite Heq. exact Hs.
    + rewrite IH. split.
      * intros (before & rest & -> & Hne & Hin).
        exists (p :: before), rest. auto.
      * intros (before & rest & H & Hne & Hin).
        destruct before as [|b before].
        -- cbn [app] in H. subst rest. exfalso.
           assert (existsb (str_eqb (join (lit ".") (p :: parts))) safe_domains
                   = true) as E'.
           { apply existsb_exists. eexists. split; [exact Hin|].
             apply str_eqb_spec. reflexivity. }
           change (lit ".") with ["."%char] in *. congruence.
        -- injection H as _ ->. exists before, rest. auto.
Qed.

(** A joined tail of the parts is the text itself or stands after a dot. *)
Lemma join_tail before rest :
  rest <> [] ->
  join (lit ".") (before ++ rest) = join (lit ".") rest
  \/ exists pre,
      join (lit ".") (before ++ rest) = pre ++ lit "." ++ join (lit ".") rest.
Proof.
  intros Hne. induction before as [|b before IH]; [left; reflexivity|].
  right. rewrite <- app_comm_cons.
  rewrite join_cons by (destruct before, rest; cbn; congruence).
  destruct IH as [-> | [pre ->]].
  - exists b. reflexivity.
  - exists (b ++ lit "." ++ pre). rewrite <- !app_assoc. reflexivity.
Qed.

Lemma safe_domains_not_empty s : In s safe_domains -> s <> [].
Proof.
  intros H E. subst s. vm_compute in H. intuition discriminate.
Qed.

Lemma safe_domains_dotted s : In s safe_domains -> In "."%char s.
Proof.
  intros H. vm_compute in H.
  repeat (destruct H as [<-|H]; [vm_compute; tauto|]). destruct H.
Qed.

Lemma is_safe_domain_spec domain :
  is_safe_domain domain = true <->
  exists s, In s safe_domains
            /\ (lower domain = s \/ exists pre, lower domain = pre ++ lit "." ++ s).
Proof.
  unfold is_safe_domain. split.
  - destruct domain as [|c domain]; [discriminate|]. cbn [truthy negb].
    intros H. apply scan_parent_domains_spec in H
      as (before & rest & Hsplit & Hne & Hin).
    exists (join (lit ".") rest). split; [exact Hin|].
    rewrite <- (join_split "." (lower (c :: domain))).
    change ["."%char] with (lit "."). rewrite Hsplit.
    apply join_tail. exact Hne.
  - intros (s & Hs & H).
    assert (Hne : domain <> []).
    { intros ->. destruct H as [H | [pre H]].
      - apply (safe_domains_not_empty s Hs). symmetry. exact H.
      - destruct pre; discriminate H. }
    destruct domain as [|c domain]; [congruence|]. cbn [truthy negb].
    apply scan_parent_domains_spec.
    destruct H as [H | [pre H]]; rewrite H.
    + exists [], (split "." s). split; [reflexivity|].
      split; [apply split_not_nil|].
      change (lit ".") with ["."%char]. rewrite join_split. exact Hs.
    + exists (split "." pre), (split "." s).
      split; [apply (split_app "." pre s)|]. split; [apply split_not_nil|].
      change (lit ".") with ["."%char]. rewrite join_split. exact Hs.
Qed.

(** X13.  A domain is on the allow-list exactly when its lower-cased
    form is one of the 23 listed domains or ends in a dot followed by
    one.  So the answer does not depend on letter case, a safe domain
    stays safe under any prefix that ends in a dot, and a domain without
    a dot is never safe. *)
Theorem is_safe_domain_label_suffix (domain : str) :
  (is_safe_domain domain = true <->
   exists s, In s safe_domains
             /\ (lower domain = s
                 \/ exists pre, lower domain = pre ++ lit "." ++ s))
  /\ (forall other, lower other = lower domain ->
        is_safe_domain other = is_safe_domain domain)
  /\ (forall pre, is_safe_domain domain = true ->
        is_safe_domain (pre ++ lit "." ++ domain) = true)
  /\ (~ In "."%char domain -> is_safe_domain domain = false).
Proof.
  split; [apply is_safe_domain_spec|]. split; [|split].
  - intros other Hl.
    destruct (is_safe_domain domain) eqn:E.
    + apply is_safe_domain_spec. apply is_safe_domain_spec in E.
      rewrite Hl. exact E.
    + destruct (is_safe_domain other) eqn:E'; [|reflexivity].
      apply is_safe_domain_spec in E'. rewrite Hl in E'.
      apply is_safe_domain_spec in E'. congruence.
  - intros pre H. apply is_safe_domain_spec in H as (s & Hs & H).
    apply is_safe_domain_spec. exists s. split; [exact Hs|]. right.
    rewrite !lower_app. destruct H as [-> | [pre' ->]].
    + exists (lower pre). reflexivity.
    + exists (lower pre ++ lit "." ++ pre'). rewrite <- !app_assoc. reflexivity.
  - intros Hdot. destruct (is_safe_domain domain) eqn:E; [|reflexivity].
    exfalso. apply is_safe_domain_spec in E as (s & Hs & H).
    assert (Hin : In "."%char (lower domain)).
    { destruct H as [-> | [pre ->]].
      - apply safe_domains_dotted. exact Hs.
      - apply in_or_app. right. left. reflexivity. }
    apply Hdot. unfold lower in Hin. apply in_map_iff in Hin as (c & Hc & Hin).
    assert (c = "."%char) as <-; [|exact Hin].
    clear - Hc. destruct c as [[] [] [] [] [] [] [] []]; vm_compute in Hc;
      first [reflexivity | discriminate Hc].
Qed.

Lemma is_safe_domain_label_suffix_witness :
  is_safe_domain (lit "Mail.Google.COM") = true
  /\ is_safe_domain (lit "localhost") = false.
Proof.
  split.
  - apply (proj1 (proj2 (proj2 (is_safe_domain_label_suffix (lit "Google.COM"))))
             (lit "Mail")).
    reflexivity.
  - apply (proj2 (proj2 (proj2 (is_safe_domain_label_suffix (lit "localhost"))))).
    vm_compute. intuition discriminate.
Defined.

(** ** The pattern detector *)








(** A text other than the standard one is among the explanations exactly
    when its predicate holds. *)
Lemma reasons_In_iff ul ip at_ nd hs sub typo reasons x :
  app.get_reasons [ul; ip; at_; nd; hs; sub; typo] = Ok reasons ->
  x <> app.reason_standard ->
  (In x reasons <-> In (true, x) (reason_catalogue ul ip at_ nd hs sub typo)).
Proof.
  rewrite get_reasons_fired. intros H Hx. injection H as <-.
  rewrite <- fired_In_iff.
  destruct (fired (reason_catalogue ul ip at_ nd hs sub typo));
    [|reflexivity].
  cbn [In]. split; [intros [H|H]; [congruence | contradiction] | tauto].
Qed.

(** X15.  The pattern detector and the feature extractor fail on the
    same URLs.  Where both answer, the detector's subdomain tag is
    present exactly when the explanations of the features name excessive
    subdomains; its length tag implies the explanation of a long URL; and,
    for a URL without tab, line feed or carriage return, the explanation
    of an IP address implies the detector's IP tag. *)
Theorem detector_agrees_with_explanations {bc : BracketCheck} (url : str) :
  ((exists tags, detect_suspicious_patterns url = Ok tags)
   <-> (exists features, extract_features url = Ok features))
  /\ forall tags features reasons,
       detect_suspicious_patterns url = Ok tags ->
       extract_features url = Ok features ->
       app.get_reasons features = Ok reasons ->
       (In (lit "Excessive subdomains") tags
        <-> In app.reason_subdomains reasons)
       /\ (In (lit "Unusually long URL") tags
           -> In app.reason_long_url reasons)
       /\ ((forall c, In c unsafe_url_bytes_to_remove -> ~ In c url) ->
           In app.reason_ip reasons ->
           In (lit "IP address instead of domain") tags).
Proof.
  rewrite detect_suspicious_patterns_fired.
  destruct (urlparse url) as [parsed|e] eqn:Hp; cbn [bind].
  2:{ split.
      - split; intros [x H]; [discriminate H|].
        unfold extract_features in H. rewrite Hp in H. discriminate H.
      - intros tags features reasons H. discriminate H. }
  rewrite (extract_features_values url parsed Hp). split.
  { split; intros _; eexists; reflexivity. }
  intros tags features reasons Ht Hf Hr.
  injection Ht as <-. injection Hf as <-.
  split; [|split].
  - rewrite (reasons_In_iff _ _ _ _ _ _ _ _ _ Hr) by discriminate.
    rewrite fired_In_iff. unfold tag_catalogue, reason_catalogue.
    cbn [suspicious_tlds shorteners map app In].
    assert (E : (count "."%char (netloc parsed) >? 4)
                = ((if truthy (netloc parsed)
                    then count "."%char (netloc parsed) - 1 else 0) >? 3)).
    { destruct (netloc parsed) as [|c n]; [reflexivity|]. cbn [truthy].
      destruct (Z.gtb_spec (count "."%char (c :: n)) 4),
        (Z.gtb_spec (count "."%char (c :: n) - 1) 3); (reflexivity || lia). }
    rewrite <- E. split; intros H.
    + repeat (destruct H as [H|H];
              [ first [ discriminate H | injection H as -> ] |]);
        [tauto | contradiction].
    + repeat (destruct H as [H|H];
              [ first [ discriminate H | injection H as -> ] |]);
        [tauto | contradiction].
  - rewrite (reasons_In_iff _ _ _ _ _ _ _ _ _ Hr) by discriminate.
    rewrite fired_In_iff. unfold tag_catalogue, reason_catalogue.
    cbn [suspicious_tlds shorteners map app In]. intros H.
    repeat (destruct H as [H|H];
            [ first [ discriminate H | injection H as H ] |]);
      [|contradiction].
    left. f_equal. apply Z.gtb_lt in H. apply Z.gtb_lt. lia.
  - intros Hsafe.
    rewrite (reasons_In_iff _ _ _ _ _ _ _ _ _ Hr) by discriminate.
    rewrite fired_In_iff. unfold tag_catalogue, reason_catalogue.
    cbn [suspicious_tlds shorteners map app In]. intros H.
    assert (E : Re.search_from ip_regex (netloc parsed) = true).
    { repeat (destruct H as [H|H];
              [ first [ discriminate H | injection H as H ] |]);
        [|contradiction].
      destruct (Re.search_from ip_regex (netloc parsed));
        [reflexivity | discriminate H]. }
    left. f_equal. apply search_from_occurs. apply search_from_occurs in E.
    destruct (authority_in_url url parsed Hsafe Hp) as (pre & post & ->).
    apply occurs_extend. exact E.
Qed.

Lemma detector_agrees_with_explanations_witness :
  In app.reason_long_url
    [app.reason_long_url; app.reason_ip; app.reason_no_https;
     app.reason_digits].
Proof.
  assert (Ht : detect_suspicious_patterns (bc := no_bracket_validation)
                 (lit "http://10.0.0.1/" ++ repeat "1"%char 90)
               = Ok [lit "IP address instead of domain";
                     lit "Unusually long URL"])
    by (vm_compute; reflexivity).
  assert (Hf : extract_features (bc := no_bracket_validation)
                 (lit "http://10.0.0.1/" ++ repeat "1"%char 90)
               = Ok [106; 1; 0; 95; 0; 2; 0])
    by (vm_compute; reflexivity).
  assert (Hr : app.get_reasons [106; 1; 0; 95; 0; 2; 0]
               = Ok [app.reason_long_url; app.reason_ip; app.reason_no_https;
                     app.reason_digits])
    by (vm_compute; reflexivity).
  apply (proj1 (proj2 (proj2 (detector_agrees_with_explanations
                                (bc := no_bracket_validation) _)
                         _ _ _ Ht Hf Hr))).
  right. left. reflexivity.
Defined.

(** ** The client address *)

(** The first field of a split has no separator; the text is that field
    alone or the field, a separator and more. *)
Lemma split_head sep t :
  exists first fields,
    split sep t = first :: fields /\ ~ In sep first
    /\ (t = first \/ exists rest, t = first ++ sep :: rest).
Proof.
  induction t as [|c t (first & fields & Hs & Hn & Ht)]; cbn [split].
  - exists [], []. split; [reflexivity|]. split; [intros []|]. left. reflexivity.
  - destruct (Ascii.eqb c sep) eqn:E.
    + apply Ascii.eqb_eq in E. subst c. exists [], (split sep t).
      split; [reflexivity|]. split; [intros []|]. right. exists t. reflexivity.
    + rewrite Hs. exists (c :: first), fields. split; [reflexivity|]. split.
      * intros [H|H]; [subst c; rewrite Ascii.eqb_refl in E; discriminate E|].
        exact (Hn H).
      * destruct Ht as [-> | [rest ->]]; [left; reflexivity|].
        right. exists rest. reflexivity.
Qed.

(** A stripped text neither starts nor ends with whitespace. *)
Lemma strip_ends t :
  (forall c, hd_error (strip t) = Some c -> isspace c = false)
  /\ (forall c, hd_error (rev (strip t)) = Some c -> isspace c = false).
Proof.
  unfold strip, lstrip_with. split; intros c Hc.
  - destruct (dropwhile_head isspace t) as [E | (a & r & E & Ha)];
      rewrite E in Hc; [discriminate Hc|].
    destruct (rstrip_keeps_head isspace a r Ha) as [r' Hr].
    rewrite Hr in Hc. injection Hc as <-. exact Ha.
  - unfold rstrip_with in Hc. rewrite rev_involutive in Hc.
    destruct (dropwhile_head isspace (rev (dropwhile isspace t)))
      as [E | (a & r & E & Ha)]; rewrite E in Hc; [discriminate Hc|].
    injection Hc as <-. exact Ha.
Qed.

(** X16.  [get_client_ip] never raises and never answers the empty
    text.  With an X-Forwarded-For header the answer comes from that
    header alone: it is the text before the first comma with the
    whitespace stripped from both ends, hence without a comma and without
    whitespace at either end, or unknown when nothing is left.  Without
    that header a non-empty X-Real-IP header is answered as it stands, and
    with neither header the peer address, or unknown when it is missing
    or empty. *)
Theorem get_client_ip_answer (request : flask_request) :
  exists ip,
    get_client_ip request = Ok ip
    /\ ip <> []
    /\ (forall forwarded,
          headers request (lit "X-Forwarded-For") = Some forwarded ->
          exists first,
            (forwarded = first \/ exists rest, forwarded = first ++ lit "," ++ rest)
            /\ ~ In ","%char first
            /\ (strip first = [] /\ ip = lit "unknown"
                \/ strip first <> [] /\ ip = strip first
                   /\ ~ In ","%char ip
                   /\ (forall c, hd_error ip = Some c -> isspace c = false)
                   /\ (forall c, hd_error (rev ip) = Some c -> isspace c = false)))
    /\ (headers request (lit "X-Forwarded-For") = None ->
        forall real,
          headers request (lit "X-Real-IP") = Some real ->
          ip = if truthy real then real else lit "unknown")
    /\ (headers request (lit "X-Forwarded-For") = None ->
        headers request (lit "X-Real-IP") = None ->
        ip = match remote_addr request with
             | Some (c :: t) => c :: t
             | _ => lit "unknown"
             end).
Proof.
  unfold get_client_ip.
  destruct (headers request (lit "X-Forwarded-For")) as [forwarded|].
  - destruct (split_head "," forwarded) as (first & fields & Hs & Hn & Ht).
    rewrite Hs. cbn [getitem nth_error bind].
    assert (Hstrip : ~ In ","%char (strip first)).
    { intros H. apply Hn. exact (In_strip _ _ H). }
    pose proof (strip_ends first) as Hends.
    destruct (strip first) as [|c s] eqn:E; cbn [truthy].
    + eexists. split; [reflexivity|]. split; [discriminate|].
      split; [|split; intros H; discriminate H].
      intros f Hf. injection Hf as <-. exists first.
      split; [exact Ht|]. split; [exact Hn|]. left. rewrite E. auto.
    + eexists. split; [reflexivity|]. split; [discriminate|].
      split; [|split; intros H; discriminate H].
      intros f Hf. injection Hf as <-. exists first.
      split; [exact Ht|]. split; [exact Hn|]. right. rewrite E.
      split; [discriminate|]. split; [reflexivity|]. tauto.
  - destruct (headers request (lit "X-Real-IP")) as [real|]; cbn [bind].
    + destruct real as [|c s]; cbn [truthy];
        (eexists; split; [reflexivity|]; split; [discriminate|];
         split; [intros f Hf; discriminate Hf|];
         split; [intros _ r Hr; injection Hr as <-; reflexivity
                | intros _ H; discriminate H]).
    + destruct (remote_addr request) as [[|c s]|]; cbn [truthy];
        (eexists; split; [reflexivity|]; split; [discriminate|];
         split; [intros f Hf; discriminate Hf|];
         split; [intros _ r Hr; discriminate Hr | reflexivity]).
Qed.

Lemma get_client_ip_answer_witness :
  get_client_ip
    {| headers := fun name =>
         if str_eqb name (lit "X-Real-IP") then Some (lit "10.1.2.3")
         else None;
       remote_addr := Some (lit "127.0.0.1") |}
  = Ok (lit "10.1.2.3").
Proof.
  destruct (get_client_ip_answer
              {| headers := fun name =>
                   if str_eqb name (lit "X-Real-IP") then Some (lit "10.1.2.3")
                   else None;
                 remote_addr := Some (lit "127.0.0.1") |})
    as (ip & H & _ & _ & Hreal & _).
  rewrite H. f_equal. exact (Hreal eq_refl _ eq_refl).
Defined.

(** ** URL preprocessing and statistics *)

Import data_preprocessing.

Lemma replace_app old new a b :
  replace old new (a ++ b) = replace old new a ++ replace old new b.
Proof. apply flat_map_app. Qed.

Lemma remove_bytes_prefixed bytes : forall p r,
  (forall b, In b bytes -> ~ In b p) ->
  fold_left (fun u b => replace b [] u) bytes (p ++ r)
  = p ++ fold_left (fun u b => replace b [] u) bytes r.
Proof.
  induction bytes as [|b bytes IH]; intros p r H; [reflexivity|].
  cbn [fold_left]. rewrite replace_app.
  rewrite (replace_absent b [] p) by (apply H; left; reflexivity).
  apply IH. intros b' Hb'. apply H. right. exact Hb'.
Qed.

(** Cleaning leaves a prefix alone that starts with no control or space
    and holds no tab or line break. *)
Lemma cleaned_prefixed a p r :
  c0_control_or_space a = false ->
  (forall b, In b unsafe_url_bytes_to_remove -> ~ In b (a :: p)) ->
  exists r', cleaned ((a :: p) ++ r) = (a :: p) ++ r'.
Proof.
  intros Ha Hs. unfold cleaned, lstrip_with. cbn [app dropwhile]. rewrite Ha.
  change (a :: p ++ r) with ((a :: p) ++ r).
  rewrite (remove_bytes_prefixed _ _ _ Hs). eexists. reflexivity.
Qed.

Lemma split_scheme_http r :
  split_scheme (lit "http://" ++ r) = (lit "http", lit "//" ++ r).
Proof. vm_compute. reflexivity. Qed.

Lemma split_scheme_https r :
  split_scheme (lit "https://" ++ r) = (lit "https", lit "//" ++ r).
Proof. vm_compute. reflexivity. Qed.

(** X17.  [preprocess_url] answers the empty text with the empty text.
    Any other answer starts with https:// when the stripped input starts
    with these eight characters as they stand, and with http:// in every
    other case: a scheme of the input in another letter case, or another
    scheme, is not taken over. *)
Theorem preprocess_url_scheme {bc : BracketCheck} (url out : str) :
  preprocess_url url = Ok out ->
  (url = [] /\ out = [])
  \/ (url <> []
      /\ exists rest,
          out = (if startswith (lit "https://") (strip url)
                 then lit "https://" else lit "http://") ++ rest).
Proof.
  unfold preprocess_url. destruct url as [|c0 url]; cbn [truthy negb].
  { intros H. injection H as <-. left. split; reflexivity. }
  intros H. right. split; [discriminate|].
  set (t := strip (c0 :: url)) in *.
  destruct (urlparse _) as [parsed|e] eqn:Hp; [|discriminate H].
  cbn [bind] in H. injection H as <-.
  apply urlparse_parts in Hp as [Hs _].
  destruct (startswith (lit "https://") t) eqn:E8.
  - rewrite orb_true_r in Hs. cbn [negb] in Hs.
    apply startswith_spec in E8 as [r Er]. rewrite Er in Hs.
    destruct (cleaned_prefixed "h" (lit "ttps://") r eq_refl) as [r' Hr'].
    { intros b Hb Hin. vm_compute in Hb, Hin. intuition congruence. }
    change ("h"%char :: lit "ttps://") with (lit "https://") in Hr'.
    rewrite Hr', split_scheme_https in Hs. cbn [fst] in Hs. rewrite Hs.
    eexists. reflexivity.
  - rewrite orb_false_r in Hs.
    assert (Hpre : exists r,
               (if negb (startswith (lit "http://") t)
                then lit "http://" ++ t else t) = lit "http://" ++ r).
    { destruct (startswith (lit "http://") t) eqn:E7; cbn [negb].
      - apply startswith_spec in E7. exact E7.
      - exists t. reflexivity. }
    destruct Hpre as [r Er]. rewrite Er in Hs.
    destruct (cleaned_prefixed "h" (lit "ttp://") r eq_refl) as [r' Hr'].
    { intros b Hb Hin. vm_compute in Hb, Hin. intuition congruence. }
    change ("h"%char :: lit "ttp://") with (lit "http://") in Hr'.
    rewrite Hr', split_scheme_http in Hs. cbn [fst] in Hs. rewrite Hs.
    eexists. reflexivity.
Qed.

Lemma preprocess_url_scheme_witness :
  exists rest,
    lit "http://https://Example.com"
    = (if startswith (lit "https://") (strip (lit " HTTPS://Example.com"))
       then lit "https://" else lit "http://") ++ rest.
Proof.
  destruct (preprocess_url_scheme (bc := no_bracket_validation)
              (lit " HTTPS://Example.com") (lit "http://https://Example.com")
              eq_refl) as [[H _] | [_ H]]; [discriminate H | exact H].
Defined.

(** Minimum, maximum and sum of a list of integers. *)
Lemma list_min_spec rest : forall first,
  list_min first rest <= first
  /\ (forall x, In x rest -> list_min first rest <= x)
  /\ In (list_min first rest) (first :: rest).
Proof.
  unfold list_min. induction rest as [|y rest IH]; intros first; cbn [fold_left].
  - split; [lia|]. split; [intros x []|left; reflexivity].
  - destruct (IH (Z.min first y)) as (H1 & H2 & H3).
    split; [lia|]. split.
    + intros x [<-|Hx]; [lia | exact (H2 x Hx)].
    + destruct H3 as [H3|H3]; [|right; right; exact H3].
      rewrite <- H3. destruct (Z.min_spec first y) as [[_ ->]|[_ ->]];
        [left | right; left]; reflexivity.
Qed.

Lemma list_max_spec rest : forall first,
  first <= list_max first rest
  /\ (forall x, In x rest -> x <= list_max first rest)
  /\ In (list_max first rest) (first :: rest).
Proof.
  unfold list_max. induction rest as [|y rest IH]; intros first; cbn [fold_left].
  - split; [lia|]. split; [intros x []|left; reflexivity].
  - destruct (IH (Z.max first y)) as (H1 & H2 & H3).
    split; [lia|]. split.
    + intros x [<-|Hx]; [lia | exact (H2 x Hx)].
    + destruct H3 as [H3|H3]; [|right; right; exact H3].
      rewrite <- H3. destruct (Z.max_spec first y) as [[_ ->]|[_ ->]];
        [right; left | left]; reflexivity.
Qed.

Lemma fold_add_acc l : forall acc,
  fold_left Z.add l acc = acc + fold_left Z.add l 0.
Proof.
  induction l as [|y l IH]; intros acc; cbn [fold_left]; [lia|].
  rewrite (IH (acc + y)), (IH (0 + y)). lia.
Qed.

Lemma list_sum_cons x l : list_sum (x :: l) = x + list_sum l.
Proof. unfold list_sum. cbn [fold_left]. apply fold_add_acc. Qed.

Lemma list_sum_bounds lo hi l :
  (forall x, In x l -> lo <= x <= hi) ->
  lo * Z.of_nat (List.length l) <= list_sum l <= hi * Z.of_nat (List.length l).
Proof.
  induction l as [|x l IH]; intros H; [cbn; lia|].
  rewrite list_sum_cons. cbn [List.length].
  pose proof (H x (or_introl eq_refl)).
  assert (forall y, In y l -> lo <= y <= hi) as Hl
    by (intros y Hy; apply H; right; exact Hy).
  specialize (IH Hl). nia.
Qed.

Lemma length_nodup_le {A} (dec : forall x y : A, {x = y} + {x <> y}) l :
  (List.length (nodup dec l) <= List.length l)%nat.
Proof.
  induction l as [|a l IH]; cbn [nodup List.length]; [lia|].
  destruct (in_dec dec a l); cbn [List.length]; lia.
Qed.

Lemma nodup_constant {A} (dec : forall x y : A, {x = y} + {x <> y}) a l :
  (forall x, In x l -> x = a) -> nodup dec (a :: l) = [a].
Proof.
  induction l as [|b l IH]; intros H; [reflexivity|].
  assert (b = a) as -> by (apply H; left; reflexivity).
  cbn [nodup] in *. destruct (in_dec dec a (a :: l)) as [_|n];
    [|exfalso; apply n; left; reflexivity].
  apply IH. intros x Hx. apply H. right. exact Hx.
Qed.

(** X18.  [get_url_statistics] answers the empty dict exactly for the
    empty list, so neither division is by zero.  For a non-empty list
    the total is the number of URLs; the number of unique domains lies
    between 1 and the total, and is 1 when all URLs have the same
    authority up to letter case; the minimum and the maximum length are
    lengths of URLs of the list and bound every length; the average is
    a sum between minimum times total and maximum times total, divided by
    the total; the https percentage is a count between 0 and the total,
    divided by the total, times 100. *)
Theorem get_url_statistics_invariants {bc : BracketCheck} (urls : list str) :
  (get_url_statistics urls = None <-> urls = [])
  /\ forall stats, get_url_statistics urls = Some stats ->
     total_urls stats = Z.of_nat (List.length urls)
     /\ 1 <= unique_domains stats <= total_urls stats
     /\ ((forall u v, In u urls -> In v urls ->
            lower (extract_domain u) = lower (extract_domain v)) ->
         unique_domains stats = 1)
     /\ (forall u, In u urls -> min_length stats <= len u <= max_length stats)
     /\ (exists u, In u urls /\ len u = min_length stats)
     /\ (exists u, In u urls /\ len u = max_length stats)
     /\ (exists total,
           avg_length stats = TrueDiv total (total_urls stats)
           /\ min_length stats * total_urls stats <= total
              <= max_length stats * total_urls stats)
     /\ (exists https_count,
           https_percentage stats
           = Times (TrueDiv https_count (total_urls stats)) 100
           /\ 0 <= https_count <= total_urls stats).
Proof.
  split.
  { destruct urls; cbn [get_url_statistics]; split; congruence. }
  intros stats H. destruct urls as [|first rest]; [discriminate H|].
  unfold get_url_statistics in H.
  apply (f_equal (fun o => match o with Some s => s | None => stats end))
    in H.
  cbv beta iota zeta in H. subst stats.
  cbn [total_urls unique_domains avg_length min_length max_length
       https_percentage].
  destruct (list_min_spec (map len rest) (len first)) as (Hm1 & Hm2 & Hm3).
  destruct (list_max_spec (map len rest) (len first)) as (HM1 & HM2 & HM3).
  assert (Hbound : forall u, In u (first :: rest) ->
            list_min (len first) (map len rest) <= len u
            <= list_max (len first) (map len rest)).
  { intros u [<-|Hu]; [lia|].
    pose proof (Hm2 (len u) (in_map len rest u Hu)).
    pose proof (HM2 (len u) (in_map len rest u Hu)). lia. }
  split; [reflexivity|]. split.
  { split.
    - cbn [map nodup].
      destruct (in_dec (list_eq_dec ascii_dec) (extract_domain first)
                  (map extract_domain rest))
        as [Hin|_]; [|cbn [List.length]; lia].
      apply (nodup_In (list_eq_dec ascii_dec)) in Hin.
      destruct (nodup (list_eq_dec ascii_dec) (map extract_domain rest));
        [destruct Hin|].
      cbn [List.length]. lia.
    - apply (proj1 (Nat2Z.inj_le _ _)).
      etransitivity; [apply length_nodup_le | rewrite length_map; lia]. }
  split.
  { intros Hsame. cbn [map]. rewrite nodup_constant; [reflexivity|].
    intros d Hd. apply in_map_iff in Hd as (u & <- & Hu).
    assert (Hl : forall w, lower (extract_domain w) = extract_domain w).
    { intros w. unfold extract_domain.
      destruct (urlparse w); [apply lower_idem | reflexivity]. }
    rewrite <- (Hl u), <- (Hl first).
    apply Hsame; [right; exact Hu | left; reflexivity]. }
  split; [exact Hbound|]. split.
  { change (len first :: map len rest) with (map len (first :: rest)) in Hm3.
    apply in_map_iff in Hm3 as (u & Hu & Hin). exists u. auto. }
  split.
  { change (len first :: map len rest) with (map len (first :: rest)) in HM3.
    apply in_map_iff in HM3 as (u & Hu & Hin). exists u. auto. }
  split.
  { eexists. split; [rewrite length_map; reflexivity|].
    rewrite <- (length_map len (first :: rest)).
    apply list_sum_bounds. intros x Hx.
    apply in_map_iff in Hx as (u & <- & Hu). exact (Hbound u Hu). }
  eexists. split; [reflexivity|].
  rewrite <- (length_map
                (fun url => if startswith (lit "https://") url then 1 else 0)
                (first :: rest)).
  pose proof (list_sum_bounds 0 1
                (map (fun url => if startswith (lit "https://") url
                                 then 1 else 0) (first :: rest))) as Hb.
  lapply Hb; [lia|].
  intros x Hx. apply in_map_iff in Hx as (u & <- & _).
  destruct (startswith (lit "https://") u); lia.
Qed.

Lemma get_url_statistics_invariants_witness :
  exists stats,
    get_url_statistics (bc := no_bracket_validation)
      [lit "https://Example.com/a"; lit "http://example.COM/login"]
    = Some stats
    /\ unique_domains stats = 1
    /\ min_length stats = 21 /\ max_length stats = 24.
Proof.
  eexists. split; [reflexivity|].
  destruct (proj2 (get_url_statistics_invariants (bc := no_bracket_validation)
                     [lit "https://Example.com/a";
                      lit "http://example.COM/login"]) _ eq_refl)
    as (_ & _ & Hu & _).
  split; [|split; reflexivity].
  apply Hu. intros u v Hu' Hv'. cbn [In] in Hu', Hv'.
  destruct Hu' as [<-|[<-|[]]], Hv' as [<-|[<-|[]]]; reflexivity.
Defined.

(** ** The /predict handler, with or without a model *)

(** The three outcomes of the handler on a non-empty URL. *)
Lemma predict_outcomes {bc : BracketCheck} model c url :
  (exists e, app.predict model (c :: url) = app.Json500 e)
  \/ exists features status confidence phishing_score reasons,
       extract_features (c :: url) = Ok features
       /\ app.score_features model features
          = Ok (status, confidence, phishing_score)
       /\ app.get_reasons features = Ok reasons
       /\ app.predict model (c :: url)
          = app.Json200 {|
              app.url := c :: url;
              app.prediction := status;
              app.confidence := app.Round confidence 3;
              app.phishing_score := phishing_score;
              app.features := combine app.feature_names features;
              app.reasons := reasons;
              app.model_used :=
                match model with
                | Some _ => lit "Random Forest"
                | None => lit "Mock"
                end |}.
Proof.
  unfold app.predict. cbn [truthy negb].
  destruct (extract_features (c :: url)) as [features|e]; cbn [bind];
    [|left; eexists; reflexivity].
  destruct (app.score_features model features)
    as [[[status confidence] score]|e] eqn:Hs;
    cbn [bind]; [|left; eexists; reflexivity].
  destruct (app.get_reasons features) as [reasons|e] eqn:Hr; cbn [bind];
    [|left; eexists; reflexivity].
  right. exists features, status, confidence, score, reasons.
  split; [reflexivity|]. split; [exact Hs|]. split; [exact Hr | reflexivity].
Qed.

(** X19.  Whatever model is loaded, the /predict handler answers 400
    exactly on the empty URL, and then with the text URL is required.
    The URL, the features and the reasons of a 200 answer do not depend
    on the model: two answers to the same URL under different models
    agree on them, the features are those of the extractor under their
    seven names, and the reasons are those the explanation generator
    gives for them.  The answer names Random Forest exactly when a model
    is loaded. *)
Theorem predict_model_independent_parts {bc : BracketCheck}
  (model model' : app.model_ref) (url : str) :
  (forall error, app.predict model url = app.Json400 error
                 <-> url = [] /\ error = lit "URL is required")
  /\ (forall body,
        app.predict model url = app.Json200 body ->
        app.url body = url
        /\ (exists features,
              extract_features url = Ok features
              /\ List.length features = 7%nat
              /\ map fst (app.features body) = app.feature_names
              /\ map snd (app.features body) = features
              /\ app.get_reasons features = Ok (app.reasons body))
        /\ (app.model_used body = lit "Random Forest" <-> model <> None)
        /\ (app.model_used body = lit "Mock" <-> model = None))
  /\ (forall body body',
        app.predict model url = app.Json200 body ->
        app.predict model' url = app.Json200 body' ->
        app.url body = app.url body'
        /\ app.features body = app.features body'
        /\ app.reasons body = app.reasons body').
Proof.
  destruct url as [|c url].
  { split; [|split].
    - intros error. cbn. split.
      + intros H. injection H as <-. split; reflexivity.
      + intros [_ ->]. reflexivity.
    - intros body H. discriminate H.
    - intros body body' H. discriminate H. }
  split; [|split].
  - intros error. split.
    + intros H.
      destruct (predict_outcomes model c url)
        as [[e He] | (f & s & cf & sc & r & _ & _ & _ & He)];
        rewrite He in H; discriminate H.
    + intros [H _]. discriminate H.
  - intros body H.
    destruct (predict_outcomes model c url)
      as [[e He] | (f & s & cf & sc & r & Hf & _ & Hr & He)];
      rewrite He in H; [discriminate H|]. injection H as <-.
    cbn [app.url app.features app.reasons app.model_used].
    pose proof (extract_features_shape (c :: url)) as Hshape.
    destruct (urlparse (c :: url)) as [parsed|e];
      [|rewrite Hshape in Hf; discriminate Hf].
    destruct Hshape as (ip & at_ & nd & hs & sub & Hshape).
    rewrite Hshape in Hf. injection Hf as <-.
    split; [reflexivity|]. split.
    { eexists. split; [exact Hshape|]. split; [reflexivity|].
      split; [reflexivity|]. split; [reflexivity | exact Hr]. }
    destruct model; split; split; intros H;
      first [reflexivity | discriminate H | congruence].
  - intros body body' H H'.
    destruct (predict_outcomes model c url)
      as [[e He] | (f & s & cf & sc & r & Hf & _ & Hr & He)];
      rewrite He in H; [discriminate H|]. injection H as <-.
    destruct (predict_outcomes model' c url)
      as [[e He'] | (f' & s' & cf' & sc' & r' & Hf' & _ & Hr' & He')];
      rewrite He' in H'; [discriminate H'|]. injection H' as <-.
    cbn [app.url app.features app.reasons].
    assert (f' = f) as -> by congruence.
    assert (r' = r) as -> by congruence.
    repeat split; reflexivity.
Qed.

Lemma predict_model_independent_parts_witness :
  exists body,
    app.predict (bc := no_bracket_validation) (Some sure_classifier)
      (lit "http://a.b/")
    = app.Json200 body
    /\ app.url body = lit "http://a.b/"
    /\ app.model_used body = lit "Random Forest".
Proof.
  eexists. split; [vm_compute; reflexivity|].
  destruct (proj1 (proj2 (predict_model_independent_parts
                            (bc := no_bracket_validation)
                            (Some sure_classifier) None (lit "http://a.b/")))
              _ eq_refl) as (Hu & _ & Hm & _).
  split; [exact Hu|]. apply Hm. discriminate.
Defined.
